(** * web-cli: the in-memory file system and its command interpreter

    A shallow embedding of [project/src/hooks/useFileSystem.ts] and of the
    types of [src/types/filesystem.ts].

    Conventions of the embedding.

    - A JavaScript string is a sequence of code units; the embedding keeps the
      code units below 256, so a string is a Rocq [string].
    - A [Date] and the ISO string it becomes after
      [JSON.parse(JSON.stringify(..))] denote the same instant: both are a
      [Time], milliseconds since the epoch.  With that reading the deep copy
      every mutating command starts from is the identity on the tree.
    - The clock ([new Date()]) is an explicit argument [now] of every
      execution; one execution reads it at most once per use site and all
      use sites of one execution get the same reading.
    - A [children] object is a plain JavaScript object: an association list
      in insertion order for its own properties, looked up through
      [Object.prototype] when the key is not an own property.
    - [setFileSystem(prev => ..)] is run against the state the callback was
      created from; an exception thrown inside the updater is the outcome
      [None]. *)

From Stdlib Require Import String Ascii List ZArith NArith Lia Bool Arith.
From Stdlib Require Import Permutation Sorted DecimalString.
Import ListNotations.
Open Scope string_scope.

(** ** Strings *)

Module Str.

Definition chr (n : nat) : string := String (ascii_of_nat n) EmptyString.

Definition nl : string := chr 10.
Definition dq : string := chr 34.
Definition esc : string := chr 27.

(** [WhiteSpace] and [LineTerminator] code units below 256: what [\s] matches
    and what [trim] removes. *)
Definition isWhiteSpace (c : ascii) : bool :=
  let n := nat_of_ascii c in
  ((9 <=? n)%nat && (n <=? 13)%nat) || (n =? 32)%nat || (n =? 160)%nat.

Definition isEmpty (s : string) : bool :=
  match s with EmptyString => true | String _ _ => false end.

Fixpoint trimStart (s : string) : string :=
  match s with
  | EmptyString => EmptyString
  | String c r => if isWhiteSpace c then trimStart r else s
  end.

Fixpoint trimEnd (s : string) : string :=
  match s with
  | EmptyString => EmptyString
  | String c r =>
      let r' := trimEnd r in
      if isWhiteSpace c && isEmpty r' then EmptyString else String c r'
  end.

(** [s.trim()] *)
Definition trim (s : string) : string := trimEnd (trimStart s).

Definition startsWithSpace (s : string) : bool :=
  match s with EmptyString => false | String c _ => isWhiteSpace c end.

Definition consHead (c : ascii) (ts : list string) : list string :=
  match ts with
  | t :: ts' => String c t :: ts'
  | [] => [String c EmptyString]
  end.

(** [s.split(/\s+/)]: the pieces between maximal runs of white space; a
    leading or trailing run leaves an empty piece, and the empty string gives
    one empty piece. *)
Fixpoint splitWs (s : string) : list string :=
  match s with
  | EmptyString => [EmptyString]
  | String c r =>
      if isWhiteSpace c
      then (if startsWithSpace r then splitWs r else EmptyString :: splitWs r)
      else consHead c (splitWs r)
  end.

(** [s.split(sep)] for a one-character separator. *)
Fixpoint splitOn (sep : ascii) (s : string) : list string :=
  match s with
  | EmptyString => [EmptyString]
  | String c r =>
      if Ascii.eqb c sep then EmptyString :: splitOn sep r
      else consHead c (splitOn sep r)
  end.

(** [xs.join(sep)] *)
Fixpoint join (sep : string) (xs : list string) : string :=
  match xs with
  | [] => EmptyString
  | [x] => x
  | x :: rest => x ++ sep ++ join sep rest
  end.

(** [s.startsWith(p)] *)
Definition startsWith (p s : string) : bool := String.prefix p s.

(** [s.includes(p)] *)
Fixpoint includes (p s : string) : bool :=
  String.prefix p s ||
  match s with
  | EmptyString => false
  | String _ r => includes p r
  end.

Fixpoint repeatChar (c : ascii) (n : nat) : string :=
  match n with O => EmptyString | S k => String c (repeatChar c k) end.

(** [s.padStart(n)] *)
Definition padStart (n : nat) (s : string) : string :=
  repeatChar " "%char (n - String.length s) ++ s.

(** [n.toString()] for a natural number. *)
Definition ofNat (n : nat) : string := NilEmpty.string_of_uint (Nat.to_uint n).

Definition hexDigit (n : nat) : string :=
  match n with
  | 0 => "0" | 1 => "1" | 2 => "2" | 3 => "3" | 4 => "4" | 5 => "5"
  | 6 => "6" | 7 => "7" | 8 => "8" | 9 => "9" | 10 => "a" | 11 => "b"
  | 12 => "c" | 13 => "d" | 14 => "e" | _ => "f"
  end.

Definition bs : string := chr 92.

(** One code unit inside a JSON string literal ([QuoteJSONString]). *)
Definition jsonChar (c : ascii) : string :=
  let n := nat_of_ascii c in
  if (n =? 8)%nat then bs ++ "b"
  else if (n =? 9)%nat then bs ++ "t"
  else if (n =? 10)%nat then bs ++ "n"
  else if (n =? 12)%nat then bs ++ "f"
  else if (n =? 13)%nat then bs ++ "r"
  else if (n =? 34)%nat then bs ++ dq
  else if (n =? 92)%nat then bs ++ bs
  else if (n <? 32)%nat then bs ++ "u00" ++ hexDigit (n / 16) ++ hexDigit (n mod 16)
  else String c EmptyString.

Fixpoint jsonBody (s : string) : string :=
  match s with
  | EmptyString => EmptyString
  | String c r => jsonChar c ++ jsonBody r
  end.

(** [JSON.stringify(s)] for a string [s]. *)
Definition jsonQuote (s : string) : string := dq ++ jsonBody s ++ dq.

(** Plain comparison of two strings by code units, as a number whose sign is
    the order. *)
Definition codeUnitCompare (a b : string) : Z :=
  match String.compare a b with Lt => (-1)%Z | Eq => 0%Z | Gt => 1%Z end.

End Str.

(** ** The data model ([types/filesystem.ts]) *)

Definition Time : Type := Z.

Inductive ItemType : Type := file | directory.

Definition ItemType_eqb (a b : ItemType) : bool :=
  match a, b with
  | file, file | directory, directory => true
  | _, _ => false
  end.

(** [FileSystemItem].  The interface declares [type], [created] and
    [modified] as always present; at run time [mv] and [cp] build nodes by
    object spread, which copies whatever own properties the source value has,
    so the embedding keeps every field but [name] optional ([None] is
    [undefined]). *)
#[warnings="-register-all"]
Inductive FileSystemItem : Type := Item {
  name : string;
  type : option ItemType;
  content : option string;
  children : option (list (string * FileSystemItem));
  created : option Time;
  modified : option Time
}.

Definition Children : Type := list (string * FileSystemItem).

Record FileSystem : Type := {
  root : FileSystemItem;
  currentPath : list string
}.

Record CommandResult : Type := {
  output : string;
  error : bool
}.

(** The part of the JavaScript realm the hook can reach through a property
    lookup on a [children] object and write to: the [modified] property that
    [touch] may set on a member of [Object.prototype] ([memberStamp]), and on
    [Object.prototype] itself ([protoStamp], with the [modified] property a
    later [touch] may set on that inherited [Date] object). *)
Record Builtins : Type := {
  memberStamp : list (string * Time);
  protoStamp : option (Time * option Time)
}.

Record World : Type := {
  fileSystem : FileSystem;
  builtins : Builtins
}.

(** The library functions the hook calls on strings and dates: the
    locale-sensitive ones are left to the implementation by the language, and
    the calendar arithmetic of [toISOString] is no part of this program. *)
Record Host : Type := {
  localeCompare : string -> string -> Z;
  toLocaleDateString : Time -> string;
  toISOString : Time -> string;
  toLocaleString : Time -> string
}.

(** ** Plain objects used as maps *)

Module Obj.

(** [k in own properties of o ? o[k] : undefined] *)
Fixpoint ownProp (o : Children) (k : string) : option FileSystemItem :=
  match o with
  | [] => None
  | (k', v) :: rest => if String.eqb k' k then Some v else ownProp rest k
  end.

Fixpoint replaceProp (o : Children) (k : string) (v : FileSystemItem) : Children :=
  match o with
  | [] => []
  | (k', v') :: rest =>
      if String.eqb k' k then (k', v) :: rest else (k', v') :: replaceProp rest k v
  end.

(** [o[k] = v] for a key that is not [__proto__]: an existing own property
    keeps its place, a new one goes last. *)
Definition setProp (o : Children) (k : string) (v : FileSystemItem) : Children :=
  match ownProp o k with
  | Some _ => replaceProp o k v
  | None => (o ++ [(k, v)])%list
  end.

(** [delete o[k]] *)
Definition deleteProp (o : Children) (k : string) : Children :=
  filter (fun kv => negb (String.eqb (fst kv) k)) o.

(** The property names every plain object inherits from [Object.prototype];
    each holds a function, and [__proto__] reads as [Object.prototype]
    itself. *)
Definition objectPrototypeKeys : list string :=
  [ "constructor"; "__defineGetter__"; "__defineSetter__"; "hasOwnProperty";
    "__lookupGetter__"; "__lookupSetter__"; "isPrototypeOf";
    "propertyIsEnumerable"; "toString"; "valueOf"; "__proto__";
    "toLocaleString" ].

Definition inherited (k : string) : bool :=
  existsb (String.eqb k) objectPrototypeKeys.

Definition isDigit (c : ascii) : bool :=
  let n := nat_of_ascii c in ((48 <=? n)%nat && (n <=? 57)%nat).

Fixpoint digitsValue (acc : N) (s : string) : option N :=
  match s with
  | EmptyString => Some acc
  | String c r =>
      if isDigit c
      then digitsValue (acc * 10 + N.of_nat (nat_of_ascii c - 48)) r
      else None
  end.

(** The array index a property key denotes, when it is the canonical decimal
    form of an integer below [2^32 - 1]. *)
Definition arrayIndex (k : string) : option N :=
  match k with
  | EmptyString => None
  | String c r =>
      if Ascii.eqb c "0"%char && negb (Str.isEmpty r) then None
      else match digitsValue 0 k with
           | Some n => if (n <? 4294967295)%N then Some n else None
           | None => None
           end
  end.

Fixpoint insertIndexed (x : N * FileSystemItem) (l : list (N * FileSystemItem))
  : list (N * FileSystemItem) :=
  match l with
  | [] => [x]
  | y :: rest =>
      if (fst x <=? fst y)%N then x :: y :: rest else y :: insertIndexed x rest
  end.

Fixpoint indexed (o : Children) : list (N * FileSystemItem) :=
  match o with
  | [] => []
  | (k, v) :: rest =>
      match arrayIndex k with
      | Some n => insertIndexed (n, v) (indexed rest)
      | None => indexed rest
      end
  end.

Fixpoint named (o : Children) : list FileSystemItem :=
  match o with
  | [] => []
  | (k, v) :: rest =>
      match arrayIndex k with
      | Some _ => named rest
      | None => v :: named rest
      end
  end.

(** [Object.values(o)]: array-index keys in ascending numeric order, then the
    other keys in insertion order. *)
Definition values (o : Children) : list FileSystemItem :=
  (map snd (indexed o) ++ named o)%list.

(** [Object.keys(o).length] *)
Definition size (o : Children) : nat := List.length o.

End Obj.

(** ** Arrays *)

Module Arr.

Section Sort.
Context {A : Type} (cmp : A -> A -> Z).

Fixpoint insert (x : A) (l : list A) : list A :=
  match l with
  | [] => [x]
  | y :: rest => if (cmp x y <=? 0)%Z then x :: y :: rest else y :: insert x rest
  end.

(** [xs.sort(cmp)]: the language asks for a stable sort and fixes the result
    for a consistent comparator; a stable insertion sort stands for it. *)
Definition sort (l : list A) : list A := fold_right insert [] l.
End Sort.

(** [xs.pop()] on a non-empty array, as the array that remains. *)
Definition pop {A : Type} (l : list A) : list A := removelast l.

(** [xs.push(x)] *)
Definition push {A : Type} (l : list A) (x : A) : list A := (l ++ [x])%list.

End Arr.

(** ** The hook ([useFileSystem.ts]) *)

(** What a property read on a [children] object can give: a node of the
    tree, a member of [Object.prototype] (named by its key), or the [Date]
    that [touch __proto__] left in [Object.prototype.modified]. *)
Inductive Value : Type :=
| VItem (it : FileSystemItem)
| VMember (k : string)
| VStamp.

Definition typeOf (v : Value) : option ItemType :=
  match v with VItem it => type it | _ => None end.

Definition childrenOf (v : Value) : option Children :=
  match v with VItem it => children it | _ => None end.

Definition contentOf (v : Value) : option string :=
  match v with VItem it => content it | _ => None end.

(** [o[k]] on a [children] object: own property first, then the prototype. *)
Definition getProp (b : Builtins) (o : Children) (k : string) : option Value :=
  match Obj.ownProp o k with
  | Some it => Some (VItem it)
  | None =>
      if Obj.inherited k then Some (VMember k)
      else if String.eqb k "modified"
           then match protoStamp b with Some _ => Some VStamp | None => None end
           else None
  end.

Fixpoint assoc (l : list (string * Time)) (k : string) : option Time :=
  match l with
  | [] => None
  | (k', t) :: rest => if String.eqb k' k then Some t else assoc rest k
  end.

(** The own [modified] property of a value that is not a node. *)
Definition ownStamp (b : Builtins) (v : Value) : option Time :=
  match v with
  | VItem it => modified it
  | VMember k =>
      if String.eqb k "__proto__" then option_map fst (protoStamp b)
      else assoc (memberStamp b) k
  | VStamp => match protoStamp b with Some (_, s) => s | None => None end
  end.

(** [v.modified = now] on a value that is not a node. *)
Definition setStamp (b : Builtins) (v : Value) (now : Time) : Builtins :=
  match v with
  | VItem _ => b
  | VMember k =>
      if String.eqb k "__proto__"
      then {| memberStamp := memberStamp b; protoStamp := Some (now, None) |}
      else {| memberStamp := (k, now) :: memberStamp b; protoStamp := protoStamp b |}
  | VStamp =>
      {| memberStamp := memberStamp b;
         protoStamp := match protoStamp b with
                       | Some (t, _) => Some (t, Some now)
                       | None => None
                       end |}
  end.

(** [{ ...v, name: n }]: the own enumerable properties of [v], then [name]. *)
Definition spreadNamed (b : Builtins) (v : option Value) (n : string)
  : FileSystemItem :=
  match v with
  | Some (VItem it) =>
      Item n (type it) (content it) (children it) (created it) (modified it)
  | Some v' => Item n None None None None (ownStamp b v')
  | None => Item n None None None None None
  end.

Definition setModified (it : FileSystemItem) (t : Time) : FileSystemItem :=
  Item (name it) (type it) (content it) (children it) (created it) (Some t).

Definition setCreated (it : FileSystemItem) (t : Time) : FileSystemItem :=
  Item (name it) (type it) (content it) (children it) (Some t) (modified it).

Definition setChildren (it : FileSystemItem) (o : Children) : FileSystemItem :=
  Item (name it) (type it) (content it) (Some o) (created it) (modified it).

Definition welcome : string :=
  "Welcome to the Web CLI Terminal!" ++ Str.nl ++ "Type " ++ Str.dq ++ "help"
  ++ Str.dq ++ " to see available commands.".

Definition newDirectory (n : string) (o : Children) (now : Time) : FileSystemItem :=
  Item n (Some directory) None (Some o) (Some now) (Some now).

Definition newFile (n : string) (c : string) (now : Time) : FileSystemItem :=
  Item n (Some file) (Some c) None (Some now) (Some now).

Definition createInitialFileSystem (now : Time) : FileSystem :=
  {| root :=
       newDirectory ""
         [ ("home",
            newDirectory "home"
              [ ("user",
                 newDirectory "user"
                   [ ("welcome.txt", newFile "welcome.txt" welcome now);
                     ("documents", newDirectory "documents" [] now) ]
                   now) ]
              now);
           ("tmp", newDirectory "tmp" [] now) ]
         now;
     currentPath := ["home"; "user"] |}.

(** A page load: the seed tree and untouched built-in objects. *)
Definition initialWorld (now : Time) : World :=
  {| fileSystem := createInitialFileSystem now;
     builtins := {| memberStamp := []; protoStamp := None |} |}.

(** The loop shared by [getCurrentDirectory] and [getItemAtPath]: [None] is
    the early exit of the loop. *)
Fixpoint walk (b : Builtins) (current : Value) (path : list string) : option Value :=
  match path with
  | [] => Some current
  | segment :: rest =>
      match childrenOf current with
      | Some o =>
          match getProp b o segment with
          | Some v => walk b v rest
          | None => None
          end
      | None => None
      end
  end.

Definition getCurrentDirectory (w : World) : Value :=
  match walk (builtins w) (VItem (root (fileSystem w))) (currentPath (fileSystem w)) with
  | Some v => v
  | None => VItem (root (fileSystem w))
  end.

Definition getItemAtPath (w : World) (path : list string) : option Value :=
  walk (builtins w) (VItem (root (fileSystem w))) path.

Definition segmentsOf (inputPath : string) : list string :=
  filter (fun s => negb (Str.isEmpty s)) (Str.splitOn "/"%char inputPath).

Definition resolveStep (currentPath : list string) (segment : string) : list string :=
  if String.eqb segment ".."
  then match currentPath with [] => currentPath | _ :: _ => Arr.pop currentPath end
  else if negb (String.eqb segment ".") then Arr.push currentPath segment
  else currentPath.

Definition resolvePath (currentPath : list string) (inputPath : string) : list string :=
  if Str.startsWith "/" inputPath
  then segmentsOf inputPath
  else fold_left resolveStep (segmentsOf inputPath) currentPath.

(** The replay of [prev.currentPath] on the deep copy followed by the edit of
    the node it ends on.  Reading [children] of a file, of [undefined] or of
    a built-in object and then indexing it throws a [TypeError]: [None]. *)
Fixpoint updateAt (path : list string)
    (edit : FileSystemItem -> option (FileSystemItem * Builtins))
    (current : FileSystemItem) : option (FileSystemItem * Builtins) :=
  match path with
  | [] => edit current
  | segment :: rest =>
      match children current with
      | None => None
      | Some o =>
          match Obj.ownProp o segment with
          | None => None
          | Some child =>
              match updateAt rest edit child with
              | Some (child', b) =>
                  Some (setChildren current (Obj.replaceProp o segment child'), b)
              | None => None
              end
          end
      end
  end.

(** The edit of the node the replay ends on; every edit starts by indexing
    [current.children]. *)
Definition editCurrent (b : Builtins)
    (edit : Builtins -> Children -> FileSystemItem -> FileSystemItem * Builtins)
    (current : FileSystemItem) : option (FileSystemItem * Builtins) :=
  match children current with
  | Some o => Some (edit b o current)
  | None => None
  end.

(** [setFileSystem(prev => { copy; replay; edit; return copy })] *)
Definition commit (w : World)
    (edit : Builtins -> Children -> FileSystemItem -> FileSystemItem * Builtins)
  : option World :=
  let fs := fileSystem w in
  match updateAt (currentPath fs) (editCurrent (builtins w) edit) (root fs) with
  | Some (r, b) =>
      Some {| fileSystem := {| root := r; currentPath := currentPath fs |};
              builtins := b |}
  | None => None
  end.

(** [setFileSystem(prev => ({ ...prev, currentPath: path }))] *)
Definition setCurrentPath (w : World) (path : list string) : World :=
  {| fileSystem := {| root := root (fileSystem w); currentPath := path |};
     builtins := builtins w |}.

Definition mkdirEdit (n : string) (now : Time)
    (b : Builtins) (o : Children) (current : FileSystemItem) :=
  (setModified (setChildren current (Obj.setProp o n (newDirectory n [] now))) now, b).

Definition touchEdit (n : string) (now : Time)
    (b : Builtins) (o : Children) (current : FileSystemItem) :=
  match getProp b o n with
  | Some (VItem it) =>
      (setModified (setChildren current (Obj.setProp o n (setModified it now))) now, b)
  | Some v => (setModified current now, setStamp b v now)
  | None =>
      (setModified (setChildren current (Obj.setProp o n (newFile n "" now))) now, b)
  end.

Definition deleteEdit (n : string) (now : Time)
    (b : Builtins) (o : Children) (current : FileSystemItem) :=
  (setModified (setChildren current (Obj.deleteProp o n)) now, b).

Definition mvEdit (src dest : string) (now : Time)
    (b : Builtins) (o : Children) (current : FileSystemItem) :=
  let moved := spreadNamed b (getProp b o src) dest in
  (setModified
     (setChildren current (Obj.deleteProp (Obj.setProp o dest moved) src)) now, b).

Definition cpEdit (src dest : string) (now : Time)
    (b : Builtins) (o : Children) (current : FileSystemItem) :=
  let copied :=
    setModified (setCreated (spreadNamed b (getProp b o src) dest) now) now in
  (setModified (setChildren current (Obj.setProp o dest copied)) now, b).

Definition optType_eqb (a b : option ItemType) : bool :=
  match a, b with
  | Some x, Some y => ItemType_eqb x y
  | None, None => true
  | _, _ => false
  end.

(** The comparator [ls] hands to [sort]. *)
Definition compareItems (h : Host) (a b : FileSystemItem) : Z :=
  if negb (optType_eqb (type a) (type b))
  then match type a with Some directory => (-1)%Z | _ => 1%Z end
  else localeCompare h (name a) (name b).

(** [item.modified || item.created || new Date()]; [modified] is read
    through the prototype. *)
Definition lsTime (b : Builtins) (now : Time) (item : FileSystemItem) : Time :=
  match modified item with
  | Some t => t
  | None =>
      match protoStamp b with
      | Some (t, _) => t
      | None => match created item with Some t => t | None => now end
      end
  end.

Definition lsLine (h : Host) (b : Builtins) (now : Time) (item : FileSystemItem)
  : string :=
  let isDir := optType_eqb (type item) (Some directory) in
  let prefix := if isDir then "d" else "-" in
  let size :=
    if optType_eqb (type item) (Some file)
    then Str.padStart 8
           (Str.ofNat (match content item with
                       | Some c => String.length c
                       | None => 0
                       end))
    else "     dir" in
  let date := toLocaleDateString h (lsTime b now item) in
  let shown :=
    if isDir then Str.esc ++ "[34m" ++ name item ++ "/" ++ Str.esc ++ "[0m"
    else name item in
  prefix ++ "rwxr-xr-x 1 user user " ++ size ++ " " ++ date ++ " " ++ shown.

(** [Object.values(o).filter(item => item && item.name)] *)
Definition listed (o : Children) : list FileSystemItem :=
  filter (fun item => negb (Str.isEmpty (name item))) (Obj.values o).

Definition lsItems (h : Host) (o : Children) : list FileSystemItem :=
  Arr.sort (compareItems h) (listed o).

Definition helpText : string :=
  Str.join Str.nl
    [ "Available commands:";
      "  mkdir <dirname>    - Create a directory";
      "  ls [path]          - List directory contents";
      "  cd <path>          - Change directory";
      "  rmdir <dirname>    - Remove empty directory";
      "  rm <filename>      - Remove file";
      "  touch <filename>   - Create empty file";
      "  mv <src> <dest>    - Move/rename file or directory";
      "  cp <src> <dest>    - Copy file or directory";
      "  curl <url>         - Fetch data from URL (simulated)";
      "  pwd                - Print working directory";
      "  cat <filename>     - Display file content";
      "  clear              - Clear terminal";
      "  help               - Show this help message" ].

Definition curlJson (h : Host) (now : Time) (url : string) : string :=
  Str.join Str.nl
    [ "{";
      "  " ++ Str.jsonQuote "message" ++ ": " ++ Str.jsonQuote "Simulated API response" ++ ",";
      "  " ++ Str.jsonQuote "url" ++ ": " ++ Str.jsonQuote url ++ ",";
      "  " ++ Str.jsonQuote "timestamp" ++ ": " ++ Str.jsonQuote (toISOString h now) ++ ",";
      "  " ++ Str.jsonQuote "data" ++ ": {";
      "    " ++ Str.jsonQuote "id" ++ ": 1,";
      "    " ++ Str.jsonQuote "name" ++ ": " ++ Str.jsonQuote "Sample Data";
      "  }";
      "}" ].

Definition curlHtml (h : Host) (now : Time) (url : string) : string :=
  Str.join Str.nl
    [ "<!DOCTYPE html>";
      "<html>";
      "<head><title>Simulated Response</title></head>";
      "<body>";
      "<h1>Web CLI Terminal</h1>";
      "<p>This is a simulated response for: " ++ url ++ "</p>";
      "<p>Timestamp: " ++ toLocaleString h now ++ "</p>";
      "</body>";
      "</html>" ].

Definition supportedCommands : list string :=
  [ "mkdir"; "ls"; "cd"; "rmdir"; "rm"; "touch"; "mv"; "cp"; "curl"; "pwd";
    "cat"; "help"; "clear" ].

(** [args[i]] when it is truthy. *)
Definition operand (args : list string) (i : nat) : option string :=
  match nth_error args i with
  | Some s => if Str.isEmpty s then None else Some s
  | None => None
  end.

(** [args[i]] inside a template literal. *)
Definition shown (args : list string) (i : nat) : string :=
  match nth_error args i with Some s => s | None => "undefined" end.

Definition Outcome : Type := (CommandResult * option World)%type.

Definition failure (w : World) (msg : string) : Outcome :=
  ({| output := msg; error := true |}, Some w).

Definition success (w : World) (out : string) : Outcome :=
  ({| output := out; error := false |}, Some w).

Definition updated (w' : option World) : Outcome :=
  ({| output := ""; error := false |}, w').

Definition quoted (s : string) : string := "'" ++ s ++ "'".

(** [args[1] ? resolvePath(args[1]) : fileSystem.currentPath] *)
Definition lsTargetPath (w : World) (args : list string) : list string :=
  match operand args 1 with
  | Some a => resolvePath (currentPath (fileSystem w)) a
  | None => currentPath (fileSystem w)
  end.

Definition lsCommand (h : Host) (now : Time) (w : World) (args : list string) : Outcome :=
  match getItemAtPath w (lsTargetPath w args) with
  | None =>
      failure w ("ls: cannot access " ++ quoted (shown args 1)
                 ++ ": No such file or directory")
  | Some targetDir =>
      if negb (optType_eqb (typeOf targetDir) (Some directory))
      then failure w ("ls: cannot access " ++ quoted (shown args 1)
                      ++ ": Not a directory")
      else
        match childrenOf targetDir with
        | None => success w ""
        | Some o =>
            if (Obj.size o =? 0)%nat then success w ""
            else success w
                   (Str.join Str.nl (map (lsLine h (builtins w) now) (lsItems h o)))
        end
  end.

Definition cdCommand (w : World) (args : list string) : Outcome :=
  match operand args 1 with
  | None => updated (Some (setCurrentPath w ["home"; "user"]))
  | Some a =>
      let targetPath := resolvePath (currentPath (fileSystem w)) a in
      match getItemAtPath w targetPath with
      | None => failure w ("cd: " ++ a ++ ": No such file or directory")
      | Some targetDir =>
          if negb (optType_eqb (typeOf targetDir) (Some directory))
          then failure w ("cd: " ++ a ++ ": Not a directory")
          else updated (Some (setCurrentPath w targetPath))
      end
  end.

Definition mkdirCommand (now : Time) (w : World) (args : list string) : Outcome :=
  match operand args 1 with
  | None => failure w "mkdir: missing operand"
  | Some a =>
      match childrenOf (getCurrentDirectory w) with
      | None => failure w "mkdir: cannot create directory: Permission denied"
      | Some o =>
          match getProp (builtins w) o a with
          | Some _ =>
              failure w ("mkdir: cannot create directory " ++ quoted a ++ ": File exists")
          | None => updated (commit w (mkdirEdit a now))
          end
      end
  end.

Definition touchCommand (now : Time) (w : World) (args : list string) : Outcome :=
  match operand args 1 with
  | None => failure w "touch: missing file operand"
  | Some a =>
      match childrenOf (getCurrentDirectory w) with
      | None => failure w "touch: cannot create file: Permission denied"
      | Some _ => updated (commit w (touchEdit a now))
      end
  end.

Definition rmCommand (now : Time) (w : World) (args : list string) : Outcome :=
  match operand args 1 with
  | None => failure w "rm: missing operand"
  | Some a =>
      let missing :=
        failure w ("rm: cannot remove " ++ quoted a ++ ": No such file or directory") in
      match childrenOf (getCurrentDirectory w) with
      | None => missing
      | Some o =>
          match getProp (builtins w) o a with
          | None => missing
          | Some v =>
              if optType_eqb (typeOf v) (Some directory)
              then failure w ("rm: cannot remove " ++ quoted a ++ ": Is a directory")
              else updated (commit w (deleteEdit a now))
          end
      end
  end.

Definition rmdirCommand (now : Time) (w : World) (args : list string) : Outcome :=
  match operand args 1 with
  | None => failure w "rmdir: missing operand"
  | Some a =>
      let missing :=
        failure w ("rmdir: failed to remove " ++ quoted a
                   ++ ": No such file or directory") in
      match childrenOf (getCurrentDirectory w) with
      | None => missing
      | Some o =>
          match getProp (builtins w) o a with
          | None => missing
          | Some targetDir =>
              if negb (optType_eqb (typeOf targetDir) (Some directory))
              then failure w ("rmdir: failed to remove " ++ quoted a
                              ++ ": Not a directory")
              else
                match childrenOf targetDir with
                | Some (_ :: _) =>
                    failure w ("rmdir: failed to remove " ++ quoted a
                               ++ ": Directory not empty")
                | _ => updated (commit w (deleteEdit a now))
                end
          end
      end
  end.

Definition catCommand (w : World) (args : list string) : Outcome :=
  match operand args 1 with
  | None => failure w "cat: missing file operand"
  | Some a =>
      let missing := failure w ("cat: " ++ a ++ ": No such file or directory") in
      match childrenOf (getCurrentDirectory w) with
      | None => missing
      | Some o =>
          match getProp (builtins w) o a with
          | None => missing
          | Some f =>
              if negb (optType_eqb (typeOf f) (Some file))
              then failure w ("cat: " ++ a ++ ": Is a directory")
              else success w (match contentOf f with Some c => c | None => "" end)
          end
      end
  end.

Definition curlCommand (h : Host) (now : Time) (w : World) (args : list string) : Outcome :=
  match operand args 1 with
  | None => failure w "curl: no URL specified"
  | Some url =>
      if negb (Str.startsWith "http://" url || Str.startsWith "https://" url)
      then failure w "curl: (1) Protocol not supported or disabled in libcurl"
      else if Str.includes "api" url || Str.includes "json" url
           then success w (curlJson h now url)
           else success w (curlHtml h now url)
  end.

Definition mvCommand (now : Time) (w : World) (args : list string) : Outcome :=
  match operand args 1, operand args 2 with
  | Some a1, Some a2 =>
      let missing :=
        failure w ("mv: cannot stat " ++ quoted a1 ++ ": No such file or directory") in
      match childrenOf (getCurrentDirectory w) with
      | None => missing
      | Some o =>
          match getProp (builtins w) o a1 with
          | None => missing
          | Some _ =>
              match getProp (builtins w) o a2 with
              | Some _ =>
                  failure w ("mv: cannot move " ++ quoted a1 ++ " to " ++ quoted a2
                             ++ ": File exists")
              | None => updated (commit w (mvEdit a1 a2 now))
              end
          end
      end
  | _, _ => failure w "mv: missing file operand"
  end.

Definition cpCommand (now : Time) (w : World) (args : list string) : Outcome :=
  match operand args 1, operand args 2 with
  | Some a1, Some a2 =>
      let missing :=
        failure w ("cp: cannot stat " ++ quoted a1 ++ ": No such file or directory") in
      match childrenOf (getCurrentDirectory w) with
      | None => missing
      | Some o =>
          match getProp (builtins w) o a1 with
          | None => missing
          | Some sourceItem =>
              match getProp (builtins w) o a2 with
              | Some _ =>
                  failure w ("cp: cannot create regular file " ++ quoted a2
                             ++ ": File exists")
              | None =>
                  if optType_eqb (typeOf sourceItem) (Some directory)
                  then failure w ("cp: -r not specified; omitting directory "
                                  ++ quoted a1)
                  else updated (commit w (cpEdit a1 a2 now))
              end
          end
      end
  | _, _ => failure w "cp: missing file operand"
  end.

(** The body of [executeCommand] after the input is split into [args]. *)
Definition executeArgs (h : Host) (now : Time) (w : World) (args : list string)
  : Outcome :=
  match operand args 0 with
  | None => success w ""
  | Some command =>
      if negb (existsb (String.eqb command) supportedCommands)
      then failure w ("Command not recognized: " ++ command)
      else if String.eqb command "help" then success w helpText
      else if String.eqb command "clear" then success w "CLEAR_TERMINAL"
      else if String.eqb command "pwd"
      then success w ("/" ++ Str.join "/" (currentPath (fileSystem w)))
      else if String.eqb command "ls" then lsCommand h now w args
      else if String.eqb command "cd" then cdCommand w args
      else if String.eqb command "mkdir" then mkdirCommand now w args
      else if String.eqb command "touch" then touchCommand now w args
      else if String.eqb command "rm" then rmCommand now w args
      else if String.eqb command "rmdir" then rmdirCommand now w args
      else if String.eqb command "cat" then catCommand w args
      else if String.eqb command "curl" then curlCommand h now w args
      else if String.eqb command "mv" then mvCommand now w args
      else if String.eqb command "cp" then cpCommand now w args
      else failure w ("Command not recognized: " ++ command)
  end.

Definition executeCommand (h : Host) (now : Time) (w : World) (input : string)
  : Outcome :=
  executeArgs h now w (Str.splitWs (Str.trim input)).

(** The state the hook holds after a session: each line is executed at its
    own clock reading against the state the previous one left; once an
    updater has thrown, the component is gone and the state stays as it
    was. *)
Fixpoint session (h : Host) (w : World) (lines : list (Time * string)) : World :=
  match lines with
  | [] => w
  | (now, input) :: rest =>
      match snd (executeCommand h now w input) with
      | Some w' => session h w' rest
      | None => w
      end
  end.

(** A host for running examples: collation that ignores the case of ASCII
    letters, and dates printed as their number. *)
Definition lowerChar (c : ascii) : ascii :=
  let n := nat_of_ascii c in
  if ((65 <=? n)%nat && (n <=? 90)%nat) then ascii_of_nat (n + 32) else c.

Fixpoint lower (s : string) : string :=
  match s with
  | EmptyString => EmptyString
  | String c r => String (lowerChar c) (lower r)
  end.

Definition printTime (t : Time) : string :=
  if (t <? 0)%Z then "-" ++ Str.ofNat (Z.to_nat (- t)) else Str.ofNat (Z.to_nat t).

Definition sampleHost : Host :=
  {| localeCompare := fun a b => Str.codeUnitCompare (lower a) (lower b);
     toLocaleDateString := printTime;
     toISOString := printTime;
     toLocaleString := printTime |}.

(** ** Notions used in the statements *)

(** A string free of white space. *)
Fixpoint noSpace (s : string) : bool :=
  match s with
  | EmptyString => true
  | String c r => negb (Str.isWhiteSpace c) && noSpace r
  end.

(** A word of a command line: not empty, no white space. *)
Definition isToken (s : string) : bool := negb (Str.isEmpty s) && noSpace s.

Fixpoint endsWithSpace (s : string) : bool :=
  match s with
  | EmptyString => false
  | String c r => if Str.isEmpty r then Str.isWhiteSpace c else endsWithSpace r
  end.

(** How many arguments a command reads: two for [mv] and [cp], none for
    [help], [clear] and [pwd], one for every other first word. *)
Definition consumed (command : string) : nat :=
  if String.eqb command "mv" || String.eqb command "cp" then 2
  else if String.eqb command "help" || String.eqb command "clear"
          || String.eqb command "pwd" then 0
  else 1.

(** The line with the words beyond those its command reads removed. *)
Definition withoutExtraTokens (input : string) : string :=
  let args := Str.splitWs (Str.trim input) in
  Str.join " " (firstn (1 + consumed (hd "" args)) args).

(** A segment that is neither empty nor [.] nor [..]. *)
Definition plainSegment (segment : string) : Prop :=
  segment <> "" /\ segment <> "." /\ segment <> "..".

Definition childCount (d : FileSystemItem) : nat :=
  match children d with Some o => Obj.size o | None => 0 end.

(** [path] names a directory node, walking from the root. *)
Definition namesDirectory (w : World) (path : list string) : Prop :=
  exists d, getItemAtPath w path = Some (VItem d) /\ type d = Some directory.

(** Every prefix of the current path names a directory. *)
Definition currentPathResolvable (w : World) : Prop :=
  forall n, namesDirectory w (firstn n (currentPath (fileSystem w))).

(** The root is there under the empty name, as a directory with a
    [children] object. *)
Definition rootIntact (w : World) : Prop :=
  name (root (fileSystem w)) = ""
  /\ type (root (fileSystem w)) = Some directory
  /\ exists o, children (root (fileSystem w)) = Some o.

Definition keepsShape
    (edit : Builtins -> Children -> FileSystemItem -> FileSystemItem * Builtins)
  : Prop :=
  forall b o c, children c = Some o ->
    name (fst (edit b o c)) = name c
    /\ type (fst (edit b o c)) = type c
    /\ children (fst (edit b o c)) <> None.

(** A tree in which the nodes with a [children] object are exactly the
    directories. *)
Fixpoint wellFormed (item : FileSystemItem) : bool :=
  match item with
  | Item _ ty _ ch _ _ =>
      match ch with
      | Some o =>
          optType_eqb ty (Some directory)
          && forallb (fun kv => wellFormed (snd kv)) o
      | None => negb (optType_eqb ty (Some directory))
      end
  end.

(** The walk along own properties only. *)
Fixpoint ownWalk (current : FileSystemItem) (path : list string)
  : option FileSystemItem :=
  match path with
  | [] => Some current
  | segment :: rest =>
      match children current with
      | Some o =>
          match Obj.ownProp o segment with
          | Some child => ownWalk child rest
          | None => None
          end
      | None => None
      end
  end.

(** The tree is well formed and the current path ends on a node with a
    [children] object. *)
Definition sound (w : World) : Prop :=
  wellFormed (root (fileSystem w)) = true
  /\ exists d o, ownWalk (root (fileSystem w)) (currentPath (fileSystem w)) = Some d
                 /\ children d = Some o.

(** The words are [cd] with no operand. *)
Definition bareCdArgs (args : list string) : bool :=
  match operand args 0, operand args 1 with
  | Some command, None => String.eqb command "cd"
  | _, _ => false
  end.

(** The line is [cd] with no operand. *)
Definition bareCd (input : string) : bool :=
  bareCdArgs (Str.splitWs (Str.trim input)).

Definition keepsWellFormed
    (edit : Builtins -> Children -> FileSystemItem -> FileSystemItem * Builtins)
  : Prop :=
  forall b o c, children c = Some o -> wellFormed c = true ->
    wellFormed (fst (edit b o c)) = true.

(** A comparator the language calls consistent: any two strings compare one
    way or the other, and the order is transitive. *)
Definition consistent (cmp : string -> string -> Z) : Prop :=
  (forall a b, (cmp a b <= 0 \/ cmp b a <= 0)%Z)
  /\ (forall a b c, (cmp a b <= 0 -> cmp b c <= 0 -> cmp a c <= 0)%Z).

(** [a] may stand before [b] in a listing ordered by [cmp]: a file never
    precedes a directory, and two entries of one kind are in the order of
    their names. *)
Definition lsOrder (cmp : string -> string -> Z) (a b : FileSystemItem) : Prop :=
  (type a = Some file -> type b = Some directory -> False)
  /\ (type a = type b -> (cmp (name a) (name b) <= 0)%Z).

(** A node that is a file or a directory. *)
Definition typed (item : FileSystemItem) : Prop := type item <> None.

Definition blank (t : option Time) : option Time :=
  match t with Some _ => Some 0%Z | None => None end.

(** A node with every time stamp in it replaced by the epoch. *)
Fixpoint untimed (item : FileSystemItem) : FileSystemItem :=
  match item with
  | Item n ty c ch cr md =>
      Item n ty c
        (match ch with
         | Some o => Some (map (fun kv => (fst kv, untimed (snd kv))) o)
         | None => None
         end)
        (blank cr) (blank md)
  end.

Definition untimedChildren (o : Children) : Children :=
  map (fun kv => (fst kv, untimed (snd kv))) o.

Definition untimedBuiltins (b : Builtins) : Builtins :=
  {| memberStamp := map (fun kt => (fst kt, 0%Z)) (memberStamp b);
     protoStamp := match protoStamp b with
                   | Some (_, s) => Some (0%Z, blank s)
                   | None => None
                   end |}.

Definition untimedWorld (w : World) : World :=
  {| fileSystem := {| root := untimed (root (fileSystem w));
                      currentPath := currentPath (fileSystem w) |};
     builtins := untimedBuiltins (builtins w) |}.

(** Two results of an updater that differ in time stamps only. *)
Definition sameShape (x y : option (FileSystemItem * Builtins)) : Prop :=
  match x, y with
  | Some (i1, b1), Some (i2, b2) =>
      untimed i1 = untimed i2 /\ untimedBuiltins b1 = untimedBuiltins b2
  | None, None => True
  | _, _ => False
  end.

Definition sameEdit
    (e1 e2 : Builtins -> Children -> FileSystemItem -> FileSystemItem * Builtins)
  : Prop :=
  forall b o c,
    untimed (fst (e1 b o c)) = untimed (fst (e2 b o c))
    /\ untimedBuiltins (snd (e1 b o c)) = untimedBuiltins (snd (e2 b o c)).

Definition sameOutcome (x y : Outcome) : Prop :=
  error (fst x) = error (fst y)
  /\ option_map untimedWorld (snd x) = option_map untimedWorld (snd y).

(** An entry whose date column [ls] prints without reading the clock. *)
Definition stamped (b : Builtins) (item : FileSystemItem) : Prop :=
  modified item <> None \/ protoStamp b <> None \/ created item <> None.

(** The node a spread of the child [d] under the name [n] gives. *)
Definition renamed (d : FileSystemItem) (n : string) : FileSystemItem :=
  Item n (type d) (content d) (children d) (created d) (modified d).

(** * Facts *)

(** ** The model at work *)

Example trim_and_split :
  Str.splitWs (Str.trim "  rm   a  b ") = ["rm"; "a"; "b"].
Proof. reflexivity. Qed.

Example split_empty_line : Str.splitWs (Str.trim "   ") = [""].
Proof. reflexivity. Qed.

Example resolve_relative :
  resolvePath ["home"; "user"] "../.././../x/./y" = ["x"; "y"].
Proof. reflexivity. Qed.

Example values_order :
  map name (Obj.values [("b", newFile "b" "" 0%Z); ("10", newFile "10" "" 0%Z);
                        ("9", newFile "9" "" 0%Z); ("a", newFile "a" "" 0%Z)])
  = ["9"; "10"; "b"; "a"].
Proof. reflexivity. Qed.

Example ls_of_seed :
  executeCommand sampleHost 1%Z (initialWorld 0%Z) "ls"
  = success (initialWorld 0%Z)
      ("drwxr-xr-x 1 user user      dir 0 " ++ Str.esc ++ "[34mdocuments/"
       ++ Str.esc ++ "[0m" ++ Str.nl
       ++ "-rwxr-xr-x 1 user user       71 0 welcome.txt").
Proof. reflexivity. Qed.

Example cd_missing :
  executeCommand sampleHost 1%Z (initialWorld 0%Z) "cd /nope"
  = failure (initialWorld 0%Z) "cd: /nope: No such file or directory".
Proof. reflexivity. Qed.

Example mkdir_twice :
  let w := session sampleHost (initialWorld 0%Z) [(1%Z, "mkdir a")] in
  executeCommand sampleHost 2%Z w "mkdir a"
  = failure w "mkdir: cannot create directory 'a': File exists".
Proof. reflexivity. Qed.

Example curl_unsupported :
  executeCommand sampleHost 1%Z (initialWorld 0%Z) "curl ftp://x"
  = failure (initialWorld 0%Z)
      "curl: (1) Protocol not supported or disabled in libcurl".
Proof. reflexivity. Qed.

Example without_extra_tokens : withoutExtraTokens "rm a b" = "rm a".
Proof. reflexivity. Qed.

(** ** Splitting a line into words *)

Lemma splitWs_nonnil s : Str.splitWs s <> [].
Proof.
  induction s as [|c r IH]; simpl; [discriminate|].
  destruct (Str.isWhiteSpace c).
  - destruct (Str.startsWithSpace r); [assumption | discriminate].
  - destruct (Str.splitWs r); discriminate.
Qed.

Lemma splitWs_noSpace s : Forall (fun t => noSpace t = true) (Str.splitWs s).
Proof.
  induction s as [|c r IH]; simpl.
  - repeat constructor.
  - destruct (Str.isWhiteSpace c) eqn:Hc.
    + destruct (Str.startsWithSpace r); [assumption | constructor; [reflexivity | assumption]].
    + destruct (Str.splitWs r) as [|t ts]; simpl.
      * repeat constructor. simpl. now rewrite Hc.
      * inversion IH; subst. constructor; [simpl; now rewrite Hc | assumption].
Qed.

Lemma splitWs_head s :
  s <> "" -> Str.startsWithSpace s = false -> Str.isEmpty (hd "" (Str.splitWs s)) = false.
Proof.
  destruct s as [|c r]; [congruence|]. simpl. intros _ Hc. rewrite Hc.
  destruct (Str.splitWs r); reflexivity.
Qed.

Lemma splitWs_cons c r :
  Str.splitWs (String c r) =
  if Str.isWhiteSpace c
  then (if Str.startsWithSpace r then Str.splitWs r else EmptyString :: Str.splitWs r)
  else Str.consHead c (Str.splitWs r).
Proof. reflexivity. Qed.

Lemma splitWs_tail s :
  endsWithSpace s = false -> Forall (fun t => Str.isEmpty t = false) (tl (Str.splitWs s)).
Proof.
  induction s as [|c r IH]; [constructor|].
  intros He. rewrite splitWs_cons. simpl in He.
  destruct (Str.isWhiteSpace c) eqn:Hc.
  - destruct (Str.isEmpty r) eqn:Hr; [discriminate|].
    specialize (IH He).
    destruct (Str.startsWithSpace r) eqn:Hs; [exact IH|].
    simpl tl.
    assert (r <> "") as Hn by (intros ->; discriminate).
    pose proof (splitWs_head r Hn Hs) as Hh.
    destruct (Str.splitWs r) as [|t ts] eqn:E.
    + now apply splitWs_nonnil in E.
    + constructor; [exact Hh | exact IH].
  - assert (endsWithSpace r = false) as Hr.
    { destruct r; [reflexivity | exact He]. }
    specialize (IH Hr). destruct (Str.splitWs r); simpl in *; [constructor | assumption].
Qed.

Lemma trimStart_clean s : Str.startsWithSpace (Str.trimStart s) = false.
Proof.
  induction s as [|c r IH]; simpl; [reflexivity|].
  destruct (Str.isWhiteSpace c) eqn:Hc; [assumption | simpl; assumption].
Qed.

Lemma trimEnd_start s :
  Str.startsWithSpace s = false -> Str.startsWithSpace (Str.trimEnd s) = false.
Proof.
  destruct s as [|c r]; simpl; [reflexivity|]. intros Hc. rewrite Hc. simpl. assumption.
Qed.

Lemma trimEnd_end s : endsWithSpace (Str.trimEnd s) = false.
Proof.
  induction s as [|c r IH]; simpl; [reflexivity|].
  destruct (Str.isWhiteSpace c) eqn:Hc; simpl.
  - destruct (Str.isEmpty (Str.trimEnd r)) eqn:He; simpl; [reflexivity|]. now rewrite He.
  - destruct (Str.isEmpty (Str.trimEnd r)) eqn:He; [assumption | assumption].
Qed.

Lemma isEmpty_true s : Str.isEmpty s = true -> s = "".
Proof. destruct s; [reflexivity | discriminate]. Qed.

(** The pieces of a trimmed line: one empty piece, or words only. *)
Lemma tokens_of_line s :
  Str.splitWs (Str.trim s) = [""] \/ Forall (fun t => isToken t = true) (Str.splitWs (Str.trim s)).
Proof.
  unfold Str.trim. set (u := Str.trimEnd (Str.trimStart s)).
  assert (Str.startsWithSpace u = false) as Hs by apply trimEnd_start, trimStart_clean.
  assert (endsWithSpace u = false) as He by apply trimEnd_end.
  destruct u as [|c r] eqn:Eu; [left; reflexivity | right].
  rewrite <- Eu in *.
  assert (u <> "") as Hn by (rewrite Eu; discriminate).
  pose proof (splitWs_head u Hn Hs) as Hh.
  pose proof (splitWs_tail u He) as Ht.
  pose proof (splitWs_noSpace u) as Hf.
  destruct (Str.splitWs u) as [|t ts]; [constructor|].
  simpl in Hh, Ht. rewrite Forall_forall in Hf, Ht.
  apply Forall_forall. intros x Hx. unfold isToken.
  rewrite (Hf x Hx), andb_true_r.
  destruct Hx as [<- | Hx]; [now rewrite Hh | now rewrite (Ht x Hx)].
Qed.

Lemma splitWs_token t : noSpace t = true -> Str.splitWs t = [t].
Proof.
  induction t as [|c r IH]; simpl; [reflexivity|].
  intros H. apply andb_true_iff in H as [Hc Hr].
  apply negb_true_iff in Hc. rewrite Hc, (IH Hr). reflexivity.
Qed.

Lemma splitWs_token_space t s :
  isToken t = true -> Str.startsWithSpace s = false ->
  Str.splitWs (t ++ " " ++ s) = t :: Str.splitWs s.
Proof.
  unfold isToken. intros H Hs. apply andb_true_iff in H as [Hn Ht].
  induction t as [|c r IH]; [discriminate|].
  simpl in Ht. apply andb_true_iff in Ht as [Hc Hr]. apply negb_true_iff in Hc.
  change (String c r ++ " " ++ s) with (String c (r ++ " " ++ s)).
  rewrite splitWs_cons, Hc. destruct r as [|c' r'].
  - change ("" ++ " " ++ s) with (String " " s).
    rewrite splitWs_cons. change (Str.isWhiteSpace " ") with true. cbv iota.
    rewrite Hs. reflexivity.
  - rewrite (IH eq_refl Hr). reflexivity.
Qed.

Lemma join_start ts :
  Forall (fun t => isToken t = true) ts -> Str.startsWithSpace (Str.join " " ts) = false.
Proof.
  destruct 1 as [|t ts Ht Hts]; [reflexivity|].
  assert (Str.startsWithSpace t = false).
  { unfold isToken in Ht. destruct t as [|c r]; [discriminate|]. simpl in *.
    apply andb_true_iff in Ht as [Hc _]. now apply negb_true_iff in Hc. }
  destruct t as [|c r]; [discriminate|].
  destruct ts; simpl in *; assumption.
Qed.

Lemma splitWs_join ts :
  ts <> [] -> Forall (fun t => isToken t = true) ts -> Str.splitWs (Str.join " " ts) = ts.
Proof.
  induction ts as [|t ts IH]; [congruence|]. intros _ H. inversion H; subst.
  destruct ts as [|t' ts'].
  - simpl. apply splitWs_token. unfold isToken in H2. now apply andb_true_iff in H2.
  - change (Str.join " " (t :: t' :: ts')) with (t ++ " " ++ Str.join " " (t' :: ts')).
    rewrite splitWs_token_space; [| assumption | now apply join_start].
    f_equal. apply IH; [discriminate | assumption].
Qed.

Lemma trimStart_id s : Str.startsWithSpace s = false -> Str.trimStart s = s.
Proof. destruct s; simpl; [reflexivity|]. now intros ->. Qed.

Lemma trimEnd_id s : endsWithSpace s = false -> Str.trimEnd s = s.
Proof.
  induction s as [|c r IH]; simpl; [reflexivity|].
  destruct r as [|c' r'].
  - simpl. now intros ->.
  - intros H. change (Str.isEmpty (String c' r')) with false in H. cbv iota in H.
    rewrite (IH H). simpl Str.isEmpty. now rewrite andb_false_r.
Qed.

Lemma endsWithSpace_app a b : b <> "" -> endsWithSpace (a ++ b) = endsWithSpace b.
Proof.
  intros Hb. induction a as [|c r IH]; [reflexivity|]. simpl.
  destruct (r ++ b) eqn:E.
  - destruct r, b; simpl in E; congruence.
  - simpl. exact IH.
Qed.

Lemma token_end t : isToken t = true -> endsWithSpace t = false.
Proof.
  unfold isToken. intros H. apply andb_true_iff in H as [_ H].
  induction t as [|c r IH]; [reflexivity|]. simpl in *.
  apply andb_true_iff in H as [Hc Hr]. apply negb_true_iff in Hc.
  destruct r; simpl; [assumption | now apply IH].
Qed.

Lemma join_end ts :
  Forall (fun t => isToken t = true) ts -> endsWithSpace (Str.join " " ts) = false.
Proof.
  induction 1 as [|t ts Ht Hts IH]; [reflexivity|].
  destruct ts as [|t' ts'].
  - simpl. now apply token_end.
  - assert (Str.join " " (t' :: ts') <> "") as Hj.
    { inversion Hts; subst. destruct t'; [discriminate|].
      destruct ts'; simpl; discriminate. }
    change (Str.join " " (t :: t' :: ts'))
      with (t ++ String " " (Str.join " " (t' :: ts'))).
    remember (Str.join " " (t' :: ts')) as J.
    rewrite endsWithSpace_app by discriminate.
    destruct J; [congruence | exact IH].
Qed.

(** Splitting the line that joins words by single spaces gives the words. *)
Lemma tokens_of_join ts :
  ts <> [] -> Forall (fun t => isToken t = true) ts ->
  Str.splitWs (Str.trim (Str.join " " ts)) = ts.
Proof.
  intros Hn H. unfold Str.trim.
  rewrite trimStart_id by now apply join_start.
  rewrite trimEnd_id by now apply join_end.
  now apply splitWs_join.
Qed.

(** ** Words a command does not read *)

Lemma operand_firstn args i k :
  i < k -> operand (firstn k args) i = operand args i.
Proof.
  intros H. unfold operand.
  now rewrite nth_error_firstn, (proj2 (Nat.ltb_lt i k) H).
Qed.

Lemma shown_firstn args i k : i < k -> shown (firstn k args) i = shown args i.
Proof.
  intros H. unfold shown.
  now rewrite nth_error_firstn, (proj2 (Nat.ltb_lt i k) H).
Qed.

Ltac firstn_args :=
  repeat rewrite operand_firstn by lia; repeat rewrite shown_firstn by lia;
  reflexivity.

(** The interpreter reads its first word and the arguments of that word
    only. *)
Lemma executeArgs_firstn h now w args :
  executeArgs h now w (firstn (1 + consumed (hd "" args)) args)
  = executeArgs h now w args.
Proof.
  destruct args as [|c rest]; [reflexivity|].
  change (hd "" (c :: rest)) with c.
  destruct (existsb (String.eqb c) supportedCommands) eqn:E.
  - apply existsb_exists in E as (x & Hin & Hx).
    apply String.eqb_eq in Hx. subst x.
    unfold supportedCommands in Hin. simpl in Hin.
    repeat (destruct Hin as [<- | Hin];
      [ unfold executeArgs;
        rewrite (operand_firstn _ 0) by lia;
        change (consumed _) with 0 || change (consumed _) with 1
        || change (consumed _) with 2;
        cbv beta iota delta
          [operand nth_error Str.isEmpty existsb supportedCommands negb];
        simpl String.eqb; cbv iota; simpl orb; cbv iota;
        unfold lsCommand, lsTargetPath, cdCommand, mkdirCommand, touchCommand,
          rmCommand, rmdirCommand, catCommand, curlCommand, mvCommand, cpCommand;
        firstn_args |]).
    contradiction.
  - unfold executeArgs. rewrite (operand_firstn _ 0) by lia.
    destruct (operand (c :: rest) 0) eqn:Ec; [|reflexivity].
    cbv beta iota delta [operand nth_error] in Ec.
    destruct (Str.isEmpty c); [discriminate|]. injection Ec as <-.
    rewrite E. reflexivity.
Qed.

(** C10. In every state, executing a line gives the result and the
    successor state of executing the line with the words beyond those its
    command reads removed (one argument for most commands, two for [mv] and
    [cp], none for [help], [clear] and [pwd]): [rm a b] behaves as
    [rm a]. *)
Theorem extra_tokens_ignored h now w input :
  executeCommand h now w (withoutExtraTokens input) = executeCommand h now w input.
Proof.
  unfold executeCommand, withoutExtraTokens.
  set (args := Str.splitWs (Str.trim input)).
  assert (Str.splitWs (Str.trim (Str.join " " (firstn (1 + consumed (hd "" args)) args)))
          = firstn (1 + consumed (hd "" args)) args) as ->.
  { destruct (tokens_of_line input) as [E | F]; fold args in E || fold args in F.
    - rewrite E. reflexivity.
    - apply tokens_of_join.
      + pose proof (splitWs_nonnil (Str.trim input)) as Hn. fold args in Hn.
        destruct args; [congruence | discriminate].
      + rewrite Forall_forall in F |- *. intros x Hx. apply F.
        rewrite <- (firstn_skipn (1 + consumed (hd "" args)) args).
        apply in_or_app. now left. }
  apply executeArgs_firstn.
Qed.

(** ** Own properties and lookups *)

Lemma ownProp_replaceProp o k v :
  Obj.ownProp o k <> None -> Obj.ownProp (Obj.replaceProp o k v) k = Some v.
Proof.
  induction o as [|[k' v'] rest IH]; simpl; [congruence|].
  destruct (String.eqb k' k) eqn:E; simpl; rewrite E; [reflexivity | exact IH].
Qed.

Lemma ownProp_deleteProp o k : Obj.ownProp (Obj.deleteProp o k) k = None.
Proof.
  induction o as [|[k' v'] rest IH]; simpl; [reflexivity|].
  destruct (String.eqb k' k) eqn:E; simpl; [exact IH | now rewrite E].
Qed.

Lemma ownProp_deleteProp_other o k k' :
  k' <> k -> Obj.ownProp (Obj.deleteProp o k) k' = Obj.ownProp o k'.
Proof.
  intros Hk. induction o as [|[k0 v0] rest IH]; simpl; [reflexivity|].
  destruct (String.eqb k0 k) eqn:E; simpl.
  - apply String.eqb_eq in E. subst k0.
    destruct (String.eqb_spec k k'); [congruence | exact IH].
  - now rewrite IH.
Qed.

Lemma ownProp_app o o' k :
  Obj.ownProp (o ++ o')%list k =
  match Obj.ownProp o k with Some v => Some v | None => Obj.ownProp o' k end.
Proof.
  induction o as [|[k0 v0] rest IH]; simpl; [reflexivity|].
  destruct (String.eqb k0 k); [reflexivity | exact IH].
Qed.

Lemma ownProp_replaceProp_other o k v k' :
  k' <> k -> Obj.ownProp (Obj.replaceProp o k v) k' = Obj.ownProp o k'.
Proof.
  intros Hk. induction o as [|[k0 v0] rest IH]; simpl; [reflexivity|].
  destruct (String.eqb k0 k) eqn:E; simpl.
  - apply String.eqb_eq in E. subst k0.
    destruct (String.eqb_spec k k'); [congruence | reflexivity].
  - now rewrite IH.
Qed.

Lemma ownProp_setProp o k v : Obj.ownProp (Obj.setProp o k v) k = Some v.
Proof.
  unfold Obj.setProp. destruct (Obj.ownProp o k) eqn:E.
  - apply ownProp_replaceProp. congruence.
  - rewrite ownProp_app, E. simpl. now rewrite String.eqb_refl.
Qed.

Lemma ownProp_setProp_other o k v k' :
  k' <> k -> Obj.ownProp (Obj.setProp o k v) k' = Obj.ownProp o k'.
Proof.
  intros Hk. unfold Obj.setProp. destruct (Obj.ownProp o k) eqn:E.
  - now apply ownProp_replaceProp_other.
  - rewrite ownProp_app. destruct (Obj.ownProp o k'); [reflexivity|].
    simpl. destruct (String.eqb_spec k k'); [congruence | reflexivity].
Qed.

Lemma getProp_own b o k v : Obj.ownProp o k = Some v -> getProp b o k = Some (VItem v).
Proof. unfold getProp. now intros ->. Qed.

Lemma getProp_item b o k v : getProp b o k = Some (VItem v) -> Obj.ownProp o k = Some v.
Proof.
  unfold getProp. destruct (Obj.ownProp o k); [congruence|].
  destruct (Obj.inherited k); [discriminate|].
  destruct (String.eqb k "modified"); [|discriminate].
  destruct (protoStamp b); discriminate.
Qed.

Lemma typeOf_directory v :
  optType_eqb (typeOf v) (Some directory) = true ->
  exists d, v = VItem d /\ type d = Some directory.
Proof.
  destruct v as [d| |]; simpl; try discriminate.
  destruct (type d) as [[|]|] eqn:E; simpl; try discriminate. eauto.
Qed.

(** ** The replay of the current path *)

Lemma updateAt_walk path edit : forall current current' b',
  updateAt path edit current = Some (current', b') ->
  exists target target',
    edit target = Some (target', b')
    /\ (forall b, walk b (VItem current) path = Some (VItem target))
    /\ (forall b, walk b (VItem current') path = Some (VItem target')).
Proof.
  induction path as [|segment rest IH]; simpl; intros current current' b' H.
  - exists current, current'. auto.
  - destruct (children current) as [o|] eqn:Ho; [|discriminate].
    destruct (Obj.ownProp o segment) as [child|] eqn:Hc; [|discriminate].
    destruct (updateAt rest edit child) as [[child' b0]|] eqn:Hu; [|discriminate].
    injection H as <- <-.
    destruct (IH _ _ _ Hu) as (target & target' & He & Hw & Hw').
    exists target, target'. split; [exact He|]. split; intros b.
    + rewrite (getProp_own b o segment child Hc). apply Hw.
    + simpl. rewrite (getProp_own b _ segment child').
      * apply Hw'.
      * apply ownProp_replaceProp. congruence.
Qed.

(** An updater that returns has found the current directory where
    [getCurrentDirectory] finds it, and leaves the edited node there. *)
Lemma commit_current w edit w' :
  commit w edit = Some w' ->
  exists current o,
    getCurrentDirectory w = VItem current
    /\ children current = Some o
    /\ getCurrentDirectory w' = VItem (fst (edit (builtins w) o current))
    /\ builtins w' = snd (edit (builtins w) o current)
    /\ currentPath (fileSystem w') = currentPath (fileSystem w).
Proof.
  unfold commit. intros H.
  destruct (updateAt _ _ _) as [[r b]|] eqn:Hu; [|discriminate].
  injection H as <-.
  apply updateAt_walk in Hu as (target & target' & He & Hw & Hw').
  unfold editCurrent in He.
  destruct (children target) as [o|] eqn:Ho; [|discriminate].
  injection He as He.
  exists target, o. unfold getCurrentDirectory. simpl.
  rewrite Hw, Hw', He. auto.
Qed.

Lemma updateAt_shape path edit : forall current current' b',
  (forall c c' b, edit c = Some (c', b) ->
     name c' = name c /\ type c' = type c /\ children c' <> None) ->
  updateAt path edit current = Some (current', b') ->
  name current' = name current /\ type current' = type current
  /\ children current' <> None.
Proof.
  destruct path as [|segment rest]; simpl; intros current current' b' He H.
  - now apply He in H.
  - destruct (children current) as [o|]; [|discriminate].
    destruct (Obj.ownProp o segment) as [child|]; [|discriminate].
    destruct (updateAt rest edit child) as [[child' b0]|]; [|discriminate].
    injection H as <- <-. simpl. repeat split; discriminate.
Qed.

(** ** The root *)

Lemma commit_rootIntact w edit w' :
  keepsShape edit -> commit w edit = Some w' -> rootIntact w -> rootIntact w'.
Proof.
  unfold commit, rootIntact. intros Hk H (Hn & Ht & o & Ho).
  destruct (updateAt _ _ _) as [[r b]|] eqn:Hu; [|discriminate].
  injection H as <-. simpl.
  apply updateAt_shape in Hu as (Hn' & Ht' & Hc').
  - rewrite Hn', Ht'. split; [assumption|]. split; [assumption|].
    destruct (children r) as [o'|]; [eauto | congruence].
  - intros c c' b0 Hc. unfold editCurrent in Hc.
    destruct (children c) as [oc|] eqn:Hoc; [|discriminate].
    injection Hc as Hc. specialize (Hk (builtins w) oc c Hoc).
    rewrite Hc in Hk. exact Hk.
Qed.

Lemma mkdirEdit_shape n now : keepsShape (mkdirEdit n now).
Proof. intros b o c Hc. simpl. repeat split; discriminate. Qed.

Lemma touchEdit_shape n now : keepsShape (touchEdit n now).
Proof.
  intros b o c Hc. unfold touchEdit.
  destruct (getProp b o n) as [[it|k|]|]; simpl; repeat split; congruence.
Qed.

Lemma deleteEdit_shape n now : keepsShape (deleteEdit n now).
Proof. intros b o c Hc. simpl. repeat split; discriminate. Qed.

Lemma mvEdit_shape s d now : keepsShape (mvEdit s d now).
Proof. intros b o c Hc. simpl. repeat split; discriminate. Qed.

Lemma cpEdit_shape s d now : keepsShape (cpEdit s d now).
Proof. intros b o c Hc. simpl. repeat split; discriminate. Qed.

Create HintDb shape.
#[local] Hint Resolve commit_rootIntact mkdirEdit_shape touchEdit_shape
  deleteEdit_shape mvEdit_shape cpEdit_shape : shape.

(** Case analysis on every test an outcome goes through. *)
Ltac split_outcome :=
  repeat match goal with
  | |- context [match ?x with _ => _ end] => destruct x eqn:?
  end.

Ltac unfold_commands :=
  unfold executeArgs, lsCommand, cdCommand, mkdirCommand, touchCommand,
    rmCommand, rmdirCommand, catCommand, curlCommand, mvCommand, cpCommand,
    failure, success, updated;
  cbv zeta.

Lemma executeArgs_rootIntact h now w args r w' :
  executeArgs h now w args = (r, Some w') -> rootIntact w -> rootIntact w'.
Proof.
  unfold_commands.
  split_outcome; intros H R; injection H as _ H;
    first [ subst w'; exact R | eauto with shape ].
Qed.

Lemma initial_rootIntact now : rootIntact (initialWorld now).
Proof. unfold rootIntact. simpl. eauto. Qed.

(** C6. Starting from the initial file system, whatever lines are executed,
    the root node is still there, its name is still the empty string, and it
    still is a directory with a [children] object. *)
Theorem root_immutable h now0 lines :
  rootIntact (session h (initialWorld now0) lines).
Proof.
  generalize (initial_rootIntact now0). generalize (initialWorld now0).
  induction lines as [|[now input] rest IH]; intros w R; simpl; [exact R|].
  destruct (executeCommand h now w input) as [r [w'|]] eqn:E; simpl; [|exact R].
  apply IH. unfold executeCommand in E. eapply executeArgs_rootIntact; eauto.
Qed.

(** ** Failing commands *)

(** C1. If executing an input line returns a result with the error flag
    set, the state after the call (the tree, the current path, and the
    built-in objects the hook can write to) is the state before the call. *)
Theorem failing_command_leaves_state h now w input :
  error (fst (executeCommand h now w input)) = true ->
  snd (executeCommand h now w input) = Some w.
Proof.
  unfold executeCommand. generalize (Str.splitWs (Str.trim input)). intros args.
  unfold_commands.
  split_outcome; cbn [fst snd error]; intros E;
    first [discriminate | reflexivity].
Qed.

Lemma failing_command_leaves_state_witness :
  error (fst (executeCommand sampleHost 1%Z (initialWorld 0%Z) "cd /nope")) = true
  /\ snd (executeCommand sampleHost 1%Z (initialWorld 0%Z) "cd /nope")
     = Some (initialWorld 0%Z).
Proof.
  split; [reflexivity|].
  apply (failing_command_leaves_state sampleHost 1%Z (initialWorld 0%Z) "cd /nope").
  reflexivity.
Defined.

(** ** Lines made of words *)

Lemma executeCommand_words h now w ts :
  ts <> [] -> Forall (fun t => isToken t = true) ts ->
  executeCommand h now w (Str.join " " ts) = executeArgs h now w ts.
Proof. intros Hn Ht. unfold executeCommand. now rewrite tokens_of_join. Qed.

Lemma operand_token args i t :
  nth_error args i = Some t -> isToken t = true -> operand args i = Some t.
Proof.
  unfold operand, isToken. intros -> H.
  apply andb_true_iff in H as [H _]. apply negb_true_iff in H. now rewrite H.
Qed.

Lemma one_operand_line h now w command n :
  isToken command = true -> isToken n = true ->
  executeCommand h now w (command ++ " " ++ n) = executeArgs h now w [command; n].
Proof.
  intros Hc Hn. change (command ++ " " ++ n) with (Str.join " " [command; n]).
  apply executeCommand_words; [discriminate | now repeat constructor].
Qed.

Lemma two_operand_line h now w command n1 n2 :
  isToken command = true -> isToken n1 = true -> isToken n2 = true ->
  executeCommand h now w (command ++ " " ++ n1 ++ " " ++ n2)
  = executeArgs h now w [command; n1; n2].
Proof.
  intros Hc H1 H2.
  change (command ++ " " ++ n1 ++ " " ++ n2) with (Str.join " " [command; n1; n2]).
  apply executeCommand_words; [discriminate | now repeat constructor].
Qed.

(** ** [rmdir] *)

(** C7. In every state, [rmdir n] fails with "Directory not empty" and the
    error flag whenever the child [n] of the current directory is a
    directory with at least one child, whatever the kind of that child; and
    when it does not fail, the child [n] was a directory with no children,
    and it is that child, and nothing else, that the new current directory
    has lost. *)
Theorem rmdir_guard h now w n o :
  isToken n = true ->
  childrenOf (getCurrentDirectory w) = Some o ->
  (forall d, Obj.ownProp o n = Some d -> type d = Some directory ->
     0 < childCount d ->
     executeCommand h now w ("rmdir " ++ n)
     = failure w ("rmdir: failed to remove " ++ quoted n ++ ": Directory not empty"))
  /\
  (forall r w', executeCommand h now w ("rmdir " ++ n) = (r, w') ->
     error r = false ->
     (exists d, Obj.ownProp o n = Some d /\ type d = Some directory
                /\ childCount d = 0)
     /\ (forall w'', w' = Some w'' ->
           childrenOf (getCurrentDirectory w'') = Some (Obj.deleteProp o n))).
Proof.
  intros Hn Ho.
  change ("rmdir " ++ n) with ("rmdir" ++ " " ++ n).
  rewrite (one_operand_line h now w "rmdir" n eq_refl Hn).
  change (executeArgs h now w ["rmdir"; n]) with (rmdirCommand now w ["rmdir"; n]).
  unfold rmdirCommand. rewrite (operand_token ["rmdir"; n] 1 n eq_refl Hn), Ho.
  cbv zeta. split.
  - intros d Hd Ht Hc. rewrite (getProp_own _ _ _ _ Hd). simpl typeOf. rewrite Ht.
    simpl. unfold childCount in Hc.
    destruct (children d) as [[|g gs]|]; simpl in Hc; try lia.
    reflexivity.
  - intros r w'. destruct (getProp (builtins w) o n) as [v|] eqn:Hv.
    2:{ intros H E. injection H as <- _. discriminate. }
    destruct (optType_eqb (typeOf v) (Some directory)) eqn:Ht; simpl negb; cbv iota.
    2:{ intros H E. injection H as <- _. discriminate. }
    apply typeOf_directory in Ht as (d & -> & Ht). apply getProp_item in Hv.
    simpl childrenOf.
    assert (forall w'', commit w (deleteEdit n now) = Some w'' ->
              childrenOf (getCurrentDirectory w'') = Some (Obj.deleteProp o n)) as Hdel.
    { intros w'' H.
      apply commit_current in H as (cur & o' & Hcur & Ho' & Hcur' & _).
      rewrite Hcur in Ho. simpl in Ho. rewrite Hcur'. simpl. congruence. }
    destruct (children d) as [[|g gs]|] eqn:Hc.
    + intros H _. injection H as _ H. split.
      * exists d. unfold childCount. rewrite Hc. auto.
      * intros w'' ->. now apply Hdel.
    + intros H E. injection H as <- _. discriminate.
    + intros H _. injection H as _ H. split.
      * exists d. unfold childCount. rewrite Hc. auto.
      * intros w'' ->. now apply Hdel.
Qed.

Lemma rmdir_guard_witness :
  let w := setCurrentPath (initialWorld 0%Z) ["home"] in
  executeCommand sampleHost 1%Z w "rmdir user"
  = failure w ("rmdir: failed to remove " ++ quoted "user" ++ ": Directory not empty").
Proof.
  intros w.
  destruct (rmdir_guard sampleHost 1%Z w "user"
              [("user", newDirectory "user"
                          [("welcome.txt", newFile "welcome.txt" welcome 0%Z);
                           ("documents", newDirectory "documents" [] 0%Z)] 0%Z)]
              eq_refl eq_refl) as [guard _].
  eapply guard; [reflexivity | reflexivity | unfold childCount; simpl; lia].
Defined.

(** ** Round trips through [cat] *)

Lemma cat_file h now w n o f c :
  isToken n = true ->
  childrenOf (getCurrentDirectory w) = Some o ->
  Obj.ownProp o n = Some f -> type f = Some file -> content f = Some c ->
  executeCommand h now w ("cat " ++ n) = success w c.
Proof.
  intros Hn Ho Hf Ht Hc.
  change ("cat " ++ n) with ("cat" ++ " " ++ n).
  rewrite (one_operand_line h now w "cat" n eq_refl Hn).
  change (executeArgs h now w ["cat"; n]) with (catCommand w ["cat"; n]).
  unfold catCommand. rewrite (operand_token ["cat"; n] 1 n eq_refl Hn), Ho.
  cbv zeta. rewrite (getProp_own _ _ _ _ Hf). simpl. now rewrite Ht, Hc.
Qed.

(** [touch f] then [cat f], for a name the lookup of the current directory
    does not find and an updater that returns. *)
Lemma touch_then_cat h t1 t2 w w' r n o :
  isToken n = true ->
  childrenOf (getCurrentDirectory w) = Some o ->
  getProp (builtins w) o n = None ->
  executeCommand h t1 w ("touch " ++ n) = (r, Some w') ->
  executeCommand h t2 w' ("cat " ++ n) = success w' "".
Proof.
  intros Hn Ho Hg.
  change ("touch " ++ n) with ("touch" ++ " " ++ n).
  rewrite (one_operand_line h t1 w "touch" n eq_refl Hn).
  change (executeArgs h t1 w ["touch"; n]) with (touchCommand t1 w ["touch"; n]).
  unfold touchCommand. rewrite (operand_token ["touch"; n] 1 n eq_refl Hn), Ho.
  intros H. injection H as _ H.
  apply commit_current in H as (cur & o' & Hcur & Ho' & Hcur' & _).
  rewrite Hcur in Ho. simpl in Ho. assert (o' = o) as -> by congruence.
  unfold touchEdit in Hcur'. rewrite Hg in Hcur'. simpl in Hcur'.
  eapply (cat_file h t2 w' n);
    [ exact Hn | rewrite Hcur'; reflexivity | apply ownProp_setProp
    | reflexivity | reflexivity ].
Qed.

(** [cp src dest] then [cat dest], for a file [src], a name [dest] the
    lookup does not find and an updater that returns. *)
Lemma cp_then_cat h t1 t2 w w' r src dest o f c :
  isToken src = true -> isToken dest = true ->
  childrenOf (getCurrentDirectory w) = Some o ->
  Obj.ownProp o src = Some f -> type f = Some file -> content f = Some c ->
  getProp (builtins w) o dest = None ->
  executeCommand h t1 w ("cp " ++ src ++ " " ++ dest) = (r, Some w') ->
  executeCommand h t2 w' ("cat " ++ dest) = success w' c.
Proof.
  intros Hs Hd Ho Hf Ht Hc Hg.
  change ("cp " ++ src ++ " " ++ dest) with ("cp" ++ " " ++ src ++ " " ++ dest).
  rewrite (two_operand_line h t1 w "cp" src dest eq_refl Hs Hd).
  change (executeArgs h t1 w ["cp"; src; dest])
    with (cpCommand t1 w ["cp"; src; dest]).
  unfold cpCommand.
  rewrite (operand_token ["cp"; src; dest] 1 src eq_refl Hs),
    (operand_token ["cp"; src; dest] 2 dest eq_refl Hd), Ho.
  cbv zeta. rewrite (getProp_own _ _ _ _ Hf), Hg. simpl typeOf. rewrite Ht. simpl.
  intros H. injection H as _ H.
  apply commit_current in H as (cur & o' & Hcur & Ho' & Hcur' & _).
  rewrite Hcur in Ho. simpl in Ho. assert (o' = o) as -> by congruence.
  unfold cpEdit in Hcur'. rewrite (getProp_own _ _ _ _ Hf) in Hcur'. simpl in Hcur'.
  eapply (cat_file h t2 w' dest);
    [ exact Hd | rewrite Hcur'; reflexivity | apply ownProp_setProp
    | exact Ht | exact Hc ].
Qed.

Lemma getProp_differ b o k k' v :
  getProp b o k = Some v -> getProp b o k' = None -> k' <> k.
Proof. intros H H' ->. congruence. Qed.

(** What [mv src dest] does to a child [d] of the current directory when the
    lookup does not find [dest] and the updater returns: the result carries
    no error, and the current directory has [d] under the key [dest], with
    the name [dest] and every other field as it was, and no key [src]. *)
Lemma mv_rekeys h now w w' r src dest o d :
  isToken src = true -> isToken dest = true ->
  childrenOf (getCurrentDirectory w) = Some o ->
  Obj.ownProp o src = Some d ->
  getProp (builtins w) o dest = None ->
  executeCommand h now w ("mv " ++ src ++ " " ++ dest) = (r, Some w') ->
  error r = false
  /\ exists o', childrenOf (getCurrentDirectory w') = Some o'
       /\ Obj.ownProp o' dest = Some (renamed d dest)
       /\ Obj.ownProp o' src = None.
Proof.
  intros Hs Hd Ho Hf Hg.
  change ("mv " ++ src ++ " " ++ dest) with ("mv" ++ " " ++ src ++ " " ++ dest).
  rewrite (two_operand_line h now w "mv" src dest eq_refl Hs Hd).
  change (executeArgs h now w ["mv"; src; dest])
    with (mvCommand now w ["mv"; src; dest]).
  unfold mvCommand.
  rewrite (operand_token ["mv"; src; dest] 1 src eq_refl Hs),
    (operand_token ["mv"; src; dest] 2 dest eq_refl Hd), Ho.
  cbv zeta. rewrite (getProp_own _ _ _ _ Hf), Hg.
  intros H. injection H as <- H. split; [reflexivity|].
  apply commit_current in H as (cur & o' & Hcur & Ho' & Hcur' & _).
  rewrite Hcur in Ho. simpl in Ho. assert (o' = o) as -> by congruence.
  unfold mvEdit in Hcur'. rewrite (getProp_own _ _ _ _ Hf) in Hcur'. simpl in Hcur'.
  eexists. split; [rewrite Hcur'; reflexivity|].
  split; [|apply ownProp_deleteProp].
  rewrite ownProp_deleteProp_other.
  - apply ownProp_setProp.
  - eapply getProp_differ; [apply getProp_own; exact Hf | exact Hg].
Qed.

(** [mv src dest] then [cat dest], under the conditions of [mv_rekeys]. *)
Lemma mv_then_cat h t1 t2 w w' r src dest o f c :
  isToken src = true -> isToken dest = true ->
  childrenOf (getCurrentDirectory w) = Some o ->
  Obj.ownProp o src = Some f -> type f = Some file -> content f = Some c ->
  getProp (builtins w) o dest = None ->
  executeCommand h t1 w ("mv " ++ src ++ " " ++ dest) = (r, Some w') ->
  executeCommand h t2 w' ("cat " ++ dest) = success w' c.
Proof.
  intros Hs Hd Ho Hf Ht Hc Hg H.
  destruct (mv_rekeys h t1 w w' r src dest o f Hs Hd Ho Hf Hg H)
    as (_ & o' & Ho' & Hdest & _).
  eapply (cat_file h t2 w' dest);
    [ exact Hd | exact Ho' | exact Hdest | exact Ht | exact Hc ].
Qed.

(** ** Sorting *)

Section SortFacts.
Context {A : Type} (cmp : A -> A -> Z) (P : A -> Prop).
Hypothesis total : forall a b, P a -> P b -> (cmp a b <= 0 \/ cmp b a <= 0)%Z.
Hypothesis trans : forall a b c, P a -> P b -> P c ->
  (cmp a b <= 0 -> cmp b c <= 0 -> cmp a c <= 0)%Z.

Lemma insert_perm x l : Permutation (Arr.insert cmp x l) (x :: l).
Proof.
  induction l as [|y rest IH]; simpl; [reflexivity|].
  destruct (cmp x y <=? 0)%Z; [reflexivity|].
  rewrite IH. apply perm_swap.
Qed.

Lemma sort_perm l : Permutation (Arr.sort cmp l) l.
Proof.
  induction l as [|x rest IH]; simpl; [reflexivity|].
  rewrite insert_perm. now constructor.
Qed.

Lemma insert_sorted x l :
  P x -> Forall P l ->
  StronglySorted (fun a b => (cmp a b <= 0)%Z) l ->
  StronglySorted (fun a b => (cmp a b <= 0)%Z) (Arr.insert cmp x l).
Proof.
  intros Px. induction l as [|y rest IH]; simpl; intros Pl Hs.
  - repeat constructor.
  - inversion Pl as [|? ? Py Prest]; subst.
    inversion Hs as [|? ? Hrest Hy]; subst.
    destruct (cmp x y <=? 0)%Z eqn:E.
    + apply Z.leb_le in E. constructor; [exact Hs|].
      constructor; [exact E|].
      rewrite Forall_forall in Hy, Prest |- *. intros z Hz.
      apply (trans x y z); auto.
    + apply Z.leb_gt in E. constructor; [now apply IH|].
      rewrite Forall_forall in Hy |- *. intros z Hz.
      apply (Permutation_in _ (insert_perm x rest)) in Hz.
      destruct Hz as [<- | Hz]; [|now apply Hy].
      destruct (total x y Px Py); [lia | assumption].
Qed.

Lemma sort_sorted l :
  Forall P l -> StronglySorted (fun a b => (cmp a b <= 0)%Z) (Arr.sort cmp l).
Proof.
  induction l as [|x rest IH]; simpl; intros Pl; [constructor|].
  inversion Pl; subst. apply insert_sorted; auto.
  rewrite Forall_forall in *. intros z Hz.
  apply (Permutation_in _ (sort_perm rest)) in Hz. auto.
Qed.
End SortFacts.

(** ** The listing of [ls] *)

Lemma compareItems_total h a b :
  consistent (localeCompare h) -> typed a -> typed b ->
  (compareItems h a b <= 0 \/ compareItems h b a <= 0)%Z.
Proof.
  intros [T _]. unfold typed, compareItems.
  destruct (type a) as [[|]|], (type b) as [[|]|]; simpl; intros; try congruence;
    try lia; apply T.
Qed.

Lemma compareItems_trans h a b c :
  consistent (localeCompare h) -> typed a -> typed b -> typed c ->
  (compareItems h a b <= 0 -> compareItems h b c <= 0 -> compareItems h a c <= 0)%Z.
Proof.
  intros [_ T]. unfold typed, compareItems.
  destruct (type a) as [[|]|], (type b) as [[|]|], (type c) as [[|]|]; simpl;
    intros; try congruence; try lia; eapply T; eauto.
Qed.

Lemma compareItems_lsOrder h a b :
  typed a -> typed b -> (compareItems h a b <= 0)%Z -> lsOrder (localeCompare h) a b.
Proof.
  unfold typed, compareItems, lsOrder.
  destruct (type a) as [[|]|], (type b) as [[|]|]; simpl; intros; split; intros;
    try congruence; try lia.
Qed.

Lemma In_insertIndexed x y l : In x (Obj.insertIndexed y l) -> x = y \/ In x l.
Proof.
  induction l as [|z rest IH]; simpl.
  - intros [<- | []]. now left.
  - destruct (fst y <=? fst z)%N; simpl; intros H.
    + destruct H as [<- | [<- | H]]; auto.
    + destruct H as [<- | H]; auto. destruct (IH H); auto.
Qed.

Lemma In_indexed n v o : In (n, v) (Obj.indexed o) -> exists k, In (k, v) o.
Proof.
  induction o as [|[k v'] rest IH]; simpl; [contradiction|].
  destruct (Obj.arrayIndex k).
  - intros H. apply In_insertIndexed in H as [H | H].
    + injection H as _ <-. eauto.
    + destruct (IH H) as [k' Hk']. eauto.
  - intros H. destruct (IH H) as [k' Hk']. eauto.
Qed.

Lemma In_named v o : In v (Obj.named o) -> exists k, In (k, v) o.
Proof.
  induction o as [|[k v'] rest IH]; simpl; [contradiction|].
  destruct (Obj.arrayIndex k); simpl.
  - intros H. destruct (IH H) as [k' Hk']. eauto.
  - intros [<- | H]; [eauto|]. destruct (IH H) as [k' Hk']. eauto.
Qed.

Lemma In_values v o : In v (Obj.values o) -> exists k, In (k, v) o.
Proof.
  unfold Obj.values. intros H. apply in_app_or in H as [H | H].
  - apply in_map_iff in H as ([n v'] & <- & H). eapply In_indexed; eauto.
  - now apply In_named.
Qed.

Lemma listed_In v o : In v (listed o) -> exists k, In (k, v) o.
Proof. unfold listed. intros H. apply filter_In in H as [H _]. now apply In_values. Qed.

Lemma lsItems_In h o v : In v (lsItems h o) -> exists k, In (k, v) o.
Proof.
  unfold lsItems. intros H.
  apply (Permutation_in _ (sort_perm (compareItems h) _)) in H.
  now apply listed_In.
Qed.

Lemma lsItems_sorted h o :
  consistent (localeCompare h) ->
  Forall (fun kv => typed (snd kv)) o ->
  StronglySorted (lsOrder (localeCompare h)) (lsItems h o).
Proof.
  intros Hc Ht.
  assert (Forall typed (lsItems h o)) as Hl.
  { rewrite Forall_forall in Ht |- *. intros v Hv.
    apply lsItems_In in Hv as [k Hk]. apply (Ht _ Hk). }
  assert (Forall typed (listed o)) as Hl0.
  { rewrite Forall_forall in Ht |- *. intros v Hv.
    apply listed_In in Hv as [k Hk]. apply (Ht _ Hk). }
  pose proof (sort_sorted (compareItems h) typed
                (fun a b => compareItems_total h a b Hc)
                (fun a b c => compareItems_trans h a b c Hc) _ Hl0) as Hs.
  fold (lsItems h o) in Hs. revert Hs Hl. generalize (lsItems h o).
  induction 1 as [|x l Hs IH Hx]; intros Hl; constructor.
  - apply IH. now inversion Hl.
  - inversion Hl; subst. rewrite Forall_forall in *. intros y Hy.
    apply compareItems_lsOrder; auto.
Qed.

(** Plain comparison by code units is a consistent comparator. *)
Lemma compare_le_trans a : forall b c,
  String.compare a b <> Gt -> String.compare b c <> Gt -> String.compare a c <> Gt.
Proof.
  induction a as [|x a IH]; intros [|y b] [|z c]; simpl; try congruence.
  unfold Ascii.compare.
  destruct (N.compare_spec (N_of_ascii x) (N_of_ascii y)) as [Exy|Lxy|Gxy];
    destruct (N.compare_spec (N_of_ascii y) (N_of_ascii z)) as [Eyz|Lyz|Gyz];
    destruct (N.compare_spec (N_of_ascii x) (N_of_ascii z)) as [Exz|Lxz|Gxz];
    try congruence; try lia.
  apply IH.
Qed.

Lemma codeUnitCompare_le a b :
  (Str.codeUnitCompare a b <= 0)%Z <-> String.compare a b <> Gt.
Proof.
  unfold Str.codeUnitCompare. destruct (String.compare a b); split; intros;
    try lia; congruence.
Qed.

Lemma codeUnitCompare_consistent : consistent Str.codeUnitCompare.
Proof.
  split.
  - intros a b. rewrite !codeUnitCompare_le, (String.compare_antisym a b).
    destruct (String.compare b a); simpl; [left | right | left]; congruence.
  - intros a b c. rewrite !codeUnitCompare_le. apply compare_le_trans.
Qed.

Lemma sampleHost_consistent : consistent (localeCompare sampleHost).
Proof.
  destruct codeUnitCompare_consistent as [T R]. split; simpl.
  - intros a b. apply T.
  - intros a b c. apply R.
Qed.

(** C3 (as amended). When [ls] lists a directory whose entries are all
    files or directories, under a consistent host collation, the output is
    one line per listed entry, directories before files, and within each
    kind in the order of [localeCompare] on the names. *)
Theorem ls_sorted_by_localeCompare h now w input rest dir o :
  consistent (localeCompare h) ->
  Str.splitWs (Str.trim input) = "ls" :: rest ->
  getItemAtPath w (lsTargetPath w ("ls" :: rest)) = Some (VItem dir) ->
  type dir = Some directory ->
  children dir = Some o ->
  Forall (fun kv => typed (snd kv)) o ->
  exists items,
    executeCommand h now w input
    = success w (Str.join Str.nl (map (lsLine h (builtins w) now) items))
    /\ Permutation items (listed o)
    /\ StronglySorted (lsOrder (localeCompare h)) items.
Proof.
  intros Hc Hi Hg Ht Ho Hty.
  exists (lsItems h o). split; [|split].
  - unfold executeCommand. rewrite Hi.
    change (executeArgs h now w ("ls" :: rest)) with (lsCommand h now w ("ls" :: rest)).
    unfold lsCommand. rewrite Hg.
    simpl typeOf. rewrite Ht. simpl. rewrite Ho.
    destruct o as [|kv o']; reflexivity.
  - apply sort_perm.
  - now apply lsItems_sorted.
Qed.

Lemma ls_sorted_by_localeCompare_witness :
  exists items,
    executeCommand sampleHost 1%Z (initialWorld 0%Z) "ls"
    = success (initialWorld 0%Z)
        (Str.join Str.nl
           (map (lsLine sampleHost (builtins (initialWorld 0%Z)) 1%Z) items))
    /\ Permutation items
         [newFile "welcome.txt" welcome 0%Z; newDirectory "documents" [] 0%Z]
    /\ StronglySorted (lsOrder (localeCompare sampleHost)) items.
Proof.
  apply (ls_sorted_by_localeCompare sampleHost 1%Z (initialWorld 0%Z) "ls" []
           (newDirectory "user"
              [("welcome.txt", newFile "welcome.txt" welcome 0%Z);
               ("documents", newDirectory "documents" [] 0%Z)] 0%Z)
           [("welcome.txt", newFile "welcome.txt" welcome 0%Z);
            ("documents", newDirectory "documents" [] 0%Z)]).
  - exact sampleHost_consistent.
  - reflexivity.
  - reflexivity.
  - reflexivity.
  - reflexivity.
  - repeat constructor; discriminate.
Defined.

(** C3 (as stated) fails.  After [touch B] and [touch a] in the initial
    directory, under a host collation that ignores the case of letters (the
    order of the ICU collations of browsers, which put [a] before [B]), [ls]
    prints the line of [a] before the line of [B]; by code units [B] is the
    smaller name. *)
Lemma ls_not_code_unit_order :
  let w := session sampleHost (initialWorld 0%Z)
             [(1%Z, "touch B"); (2%Z, "touch a")] in
  exists dir o,
    getItemAtPath w (lsTargetPath w ["ls"]) = Some (VItem dir)
    /\ type dir = Some directory
    /\ children dir = Some o
    /\ Forall (fun kv => typed (snd kv)) o
    /\ executeCommand sampleHost 3%Z w "ls"
       = success w (Str.join Str.nl
                      (map (lsLine sampleHost (builtins w) 3%Z) (lsItems sampleHost o)))
    /\ ~ StronglySorted (lsOrder Str.codeUnitCompare) (lsItems sampleHost o).
Proof.
  intros w. eexists. eexists.
  split; [vm_compute; reflexivity|].
  split; [reflexivity|].
  split; [reflexivity|].
  split; [repeat constructor; discriminate|].
  split; [vm_compute; reflexivity|].
  intros H. vm_compute in H.
  apply StronglySorted_inv in H as [H _].
  apply StronglySorted_inv in H as [_ H].
  apply Forall_inv in H as [_ H].
  specialize (H eq_refl). vm_compute in H. apply H. reflexivity.
Qed.

(** ** What the clock decides *)

Lemma untimed_unfold item :
  untimed item =
  Item (name item) (type item) (content item)
    (option_map untimedChildren (children item))
    (blank (created item)) (blank (modified item)).
Proof. destruct item as [n ty c [o|] cr md]; reflexivity. Qed.

Lemma untimed_replaceProp o k v1 v2 :
  untimed v1 = untimed v2 ->
  untimedChildren (Obj.replaceProp o k v1) = untimedChildren (Obj.replaceProp o k v2).
Proof.
  intros H. induction o as [|[k' v'] rest IH]; simpl; [reflexivity|].
  destruct (String.eqb k' k); simpl; [now rewrite H | now rewrite IH].
Qed.

Lemma untimed_setProp o k v1 v2 :
  untimed v1 = untimed v2 ->
  untimedChildren (Obj.setProp o k v1) = untimedChildren (Obj.setProp o k v2).
Proof.
  intros H. unfold Obj.setProp. destruct (Obj.ownProp o k).
  - now apply untimed_replaceProp.
  - unfold untimedChildren. rewrite !map_app. simpl. now rewrite H.
Qed.

Lemma untimed_deleteProp o1 o2 k :
  untimedChildren o1 = untimedChildren o2 ->
  untimedChildren (Obj.deleteProp o1 k) = untimedChildren (Obj.deleteProp o2 k).
Proof.
  revert o2. induction o1 as [|[k1 v1] r1 IH]; intros [|[k2 v2] r2]; simpl;
    try discriminate; [reflexivity|].
  intros H. injection H as -> Hv Hr.
  destruct (String.eqb k2 k); simpl; [now apply IH|]. rewrite Hv. f_equal. now apply IH.
Qed.

Lemma updateAt_sameShape path e1 e2 : forall current,
  (forall c, sameShape (e1 c) (e2 c)) ->
  sameShape (updateAt path e1 current) (updateAt path e2 current).
Proof.
  induction path as [|segment rest IH]; simpl; intros current He; [apply He|].
  destruct (children current) as [o|] eqn:Ho; [|exact I].
  destruct (Obj.ownProp o segment) as [child|]; [|exact I].
  specialize (IH child He). unfold sameShape in IH |- *.
  destruct (updateAt rest e1 child) as [[c1 b1]|], (updateAt rest e2 child) as [[c2 b2]|];
    try contradiction; [|exact I].
  destruct IH as [Hc Hb]. split; [|exact Hb].
  rewrite !untimed_unfold. simpl. f_equal. f_equal. now apply untimed_replaceProp.
Qed.

Lemma commit_sameShape w e1 e2 :
  sameEdit e1 e2 ->
  option_map untimedWorld (commit w e1) = option_map untimedWorld (commit w e2).
Proof.
  intros He. unfold commit.
  pose proof (updateAt_sameShape (currentPath (fileSystem w))
                (editCurrent (builtins w) e1) (editCurrent (builtins w) e2)
                (root (fileSystem w))) as H.
  assert (forall c, sameShape (editCurrent (builtins w) e1 c)
                      (editCurrent (builtins w) e2 c)) as HA.
  { intros c. unfold editCurrent, sameShape.
    destruct (children c) as [o|]; [|exact I].
    destruct (He (builtins w) o c) as [H1 H2].
    destruct (e1 (builtins w) o c), (e2 (builtins w) o c). simpl in *. auto. }
  specialize (H HA). unfold sameShape in H.
  destruct (updateAt _ (editCurrent (builtins w) e1) _) as [[r1 b1]|],
    (updateAt _ (editCurrent (builtins w) e2) _) as [[r2 b2]|];
    try contradiction; [|reflexivity].
  destruct H as [H1 H2]. simpl. unfold untimedWorld. simpl. now rewrite H1, H2.
Qed.

Lemma setStamp_untimed b v t1 t2 :
  untimedBuiltins (setStamp b v t1) = untimedBuiltins (setStamp b v t2).
Proof.
  destruct v as [it|k|]; simpl; [reflexivity| |].
  - destruct (String.eqb k "__proto__"); reflexivity.
  - unfold untimedBuiltins. simpl. destruct (protoStamp b) as [[t s]|]; reflexivity.
Qed.

Lemma untimed_setModified item t1 t2 :
  untimed (setModified item t1) = untimed (setModified item t2).
Proof. rewrite !untimed_unfold. reflexivity. Qed.

Lemma untimed_setChildren item o1 o2 t1 t2 :
  untimedChildren o1 = untimedChildren o2 ->
  untimed (setModified (setChildren item o1) t1)
  = untimed (setModified (setChildren item o2) t2).
Proof. intros H. rewrite !untimed_unfold. simpl. now rewrite H. Qed.

Lemma touchEdit_sameEdit n t1 t2 : sameEdit (touchEdit n t1) (touchEdit n t2).
Proof.
  intros b o c. unfold touchEdit.
  destruct (getProp b o n) as [[it|k|]|]; cbn [fst snd]; split;
    auto using untimed_setChildren, untimed_setProp, untimed_setModified,
      setStamp_untimed.
Qed.

Lemma mkdirEdit_sameEdit n t1 t2 : sameEdit (mkdirEdit n t1) (mkdirEdit n t2).
Proof.
  intros b o c. unfold mkdirEdit. cbn [fst snd]. split; [|reflexivity].
  apply untimed_setChildren, untimed_setProp. reflexivity.
Qed.

Lemma deleteEdit_sameEdit n t1 t2 : sameEdit (deleteEdit n t1) (deleteEdit n t2).
Proof.
  intros b o c. unfold deleteEdit. cbn [fst snd]. split; [|reflexivity].
  now apply untimed_setChildren.
Qed.

Lemma mvEdit_sameEdit s d t1 t2 : sameEdit (mvEdit s d t1) (mvEdit s d t2).
Proof.
  intros b o c. unfold mvEdit. cbn [fst snd]. split; [|reflexivity].
  now apply untimed_setChildren.
Qed.

Lemma cpEdit_sameEdit s d t1 t2 : sameEdit (cpEdit s d t1) (cpEdit s d t2).
Proof.
  intros b o c. unfold cpEdit. cbn [fst snd]. split; [|reflexivity].
  apply untimed_setChildren, untimed_setProp.
  rewrite !untimed_unfold. reflexivity.
Qed.

Create HintDb stamps.
#[local] Hint Resolve commit_sameShape mkdirEdit_sameEdit touchEdit_sameEdit
  deleteEdit_sameEdit mvEdit_sameEdit cpEdit_sameEdit : stamps.

Lemma lsLine_clock h b t1 t2 item :
  stamped b item -> lsLine h b t1 item = lsLine h b t2 item.
Proof.
  intros H. unfold lsLine, lsTime.
  destruct (modified item) eqn:Em; [reflexivity|].
  destruct (protoStamp b) as [[t s]|] eqn:Ep; [reflexivity|].
  destruct (created item) eqn:Ec; [reflexivity|].
  destruct H as [H | [H | H]]; congruence.
Qed.

Lemma executeArgs_sameOutcome h w args t1 t2 :
  sameOutcome (executeArgs h t1 w args) (executeArgs h t2 w args).
Proof.
  unfold sameOutcome. unfold_commands.
  split_outcome; cbn [fst snd error]; split; try reflexivity; auto with stamps.
Qed.

Lemma lsCommand_output h w args t1 t2 :
  (forall v o, getItemAtPath w (lsTargetPath w args) = Some v ->
     childrenOf v = Some o -> Forall (fun kv => stamped (builtins w) (snd kv)) o) ->
  output (fst (lsCommand h t1 w args)) = output (fst (lsCommand h t2 w args)).
Proof.
  intros H. unfold lsCommand. fold (lsTargetPath w args).
  destruct (getItemAtPath w (lsTargetPath w args)) as [v|] eqn:Hv; [|reflexivity].
  destruct (negb _); [reflexivity|].
  destruct (childrenOf v) as [o|] eqn:Ho; [|reflexivity].
  destruct (Obj.size o =? 0)%nat; [reflexivity|]. simpl. f_equal.
  apply map_ext_in. intros item Hi. apply lsLine_clock.
  apply lsItems_In in Hi as [k Hk].
  specialize (H v o eq_refl Ho). rewrite Forall_forall in H. apply (H _ Hk).
Qed.

Lemma executeArgs_output h w args t1 t2 :
  (operand args 0 = Some "curl" -> error (fst (executeArgs h t1 w args)) = true) ->
  (operand args 0 = Some "ls" ->
   forall v o, getItemAtPath w (lsTargetPath w args) = Some v ->
     childrenOf v = Some o -> Forall (fun kv => stamped (builtins w) (snd kv)) o) ->
  output (fst (executeArgs h t1 w args)) = output (fst (executeArgs h t2 w args)).
Proof.
  intros Hcurl Hls.
  destruct (operand args 0) as [c|] eqn:Ec.
  2:{ unfold executeArgs. now rewrite Ec. }
  destruct (String.eqb_spec c "ls") as [-> | Nls].
  { assert (forall t, executeArgs h t w args = lsCommand h t w args) as E
      by (intros t; unfold executeArgs; rewrite Ec; reflexivity).
    rewrite !E. apply lsCommand_output. now apply Hls. }
  destruct (String.eqb_spec c "curl") as [-> | Ncurl].
  { assert (forall t, executeArgs h t w args = curlCommand h t w args) as E
      by (intros t; unfold executeArgs; rewrite Ec; reflexivity).
    specialize (Hcurl eq_refl). rewrite !E in *.
    unfold curlCommand, failure, success in *.
    destruct (operand args 1); [|reflexivity].
    destruct (negb _); [reflexivity|].
    destruct (_ || _); cbn [fst error] in Hcurl; discriminate. }
  apply String.eqb_neq in Nls, Ncurl.
  unfold executeArgs. rewrite Ec, Nls, Ncurl.
  unfold cdCommand, mkdirCommand, touchCommand,
    rmCommand, rmdirCommand, catCommand, mvCommand, cpCommand,
    failure, success, updated.
  cbv zeta.
  split_outcome; reflexivity.
Qed.

(** C4 (as amended). Two executions of one line against one state, at two
    readings of the clock, return the same error flag; they leave states that
    differ in the values of time stamps only (and the updater of one throws
    exactly when the updater of the other does); and they print the same
    output, unless the command is a [curl] that succeeds or an [ls] that
    lists an entry with no time stamp. *)
Theorem clock_only_stamps h w input t1 t2 :
  let args := Str.splitWs (Str.trim input) in
  let x := executeCommand h t1 w input in
  let y := executeCommand h t2 w input in
  error (fst x) = error (fst y)
  /\ option_map untimedWorld (snd x) = option_map untimedWorld (snd y)
  /\ ((operand args 0 = Some "curl" -> error (fst x) = true) ->
      (operand args 0 = Some "ls" ->
       forall v o, getItemAtPath w (lsTargetPath w args) = Some v ->
         childrenOf v = Some o ->
         Forall (fun kv => stamped (builtins w) (snd kv)) o) ->
      output (fst x) = output (fst y)).
Proof.
  intros args x y. unfold x, y, executeCommand. fold args.
  destruct (executeArgs_sameOutcome h w args t1 t2) as [He Hw].
  split; [exact He | split; [exact Hw | now apply executeArgs_output]].
Qed.

Lemma clock_only_stamps_witness :
  output (fst (executeCommand sampleHost 1%Z (initialWorld 0%Z) "ls"))
  = output (fst (executeCommand sampleHost 2%Z (initialWorld 0%Z) "ls")).
Proof.
  destruct (clock_only_stamps sampleHost (initialWorld 0%Z) "ls" 1%Z 2%Z)
    as (_ & _ & same).
  apply same.
  - intros H. discriminate H.
  - intros _ v o Hv Ho. vm_compute in Hv. injection Hv as <-.
    simpl in Ho. injection Ho as <-.
    constructor; [left; discriminate|].
    constructor; [left; discriminate|].
    constructor.
Defined.

(** The body [curl] prints holds the reading of the clock. *)
Lemma curl_prints_clock :
  output (fst (executeCommand sampleHost 1%Z (initialWorld 0%Z) "curl http://api.x"))
  <> output (fst (executeCommand sampleHost 2%Z (initialWorld 0%Z) "curl http://api.x")).
Proof. vm_compute. discriminate. Qed.

(** C4 (as stated) fails: [mkdir a] executed against the initial state at
    two readings of the clock leaves two different states. *)
Lemma execution_reads_clock :
  ~ (forall h w input t1 t2,
       executeCommand h t1 w input = executeCommand h t2 w input).
Proof.
  intros H.
  specialize (H sampleHost (initialWorld 0%Z) "mkdir a" 1%Z 2%Z).
  vm_compute in H. discriminate.
Qed.

(** ** Path resolution *)

Lemma segmentsOf_nonempty p : Forall (fun s => s <> "") (segmentsOf p).
Proof.
  unfold segmentsOf. apply Forall_forall. intros s H.
  apply filter_In in H as [_ H]. destruct s; [discriminate | discriminate].
Qed.

Lemma Forall_removelast {A : Type} (P : A -> Prop) l :
  Forall P l -> Forall P (removelast l).
Proof.
  induction 1 as [|x l Hx Hl IH]; simpl; [constructor|].
  destruct l; [constructor | now constructor].
Qed.

Lemma resolveStep_plain cur segment :
  segment <> "" -> Forall plainSegment cur ->
  Forall plainSegment (resolveStep cur segment).
Proof.
  intros Hs Hc. unfold resolveStep, Arr.pop, Arr.push.
  destruct (String.eqb_spec segment "..") as [-> | Hup].
  - destruct cur; [assumption | now apply Forall_removelast].
  - destruct (String.eqb_spec segment ".") as [-> | Hdot]; simpl; [assumption|].
    apply Forall_app. split; [assumption|]. repeat constructor; assumption.
Qed.

(** A relative input resolved against a current path of plain segments
    gives plain segments. *)
Lemma resolvePath_relative_plain cur p :
  Str.startsWith "/" p = false -> Forall plainSegment cur ->
  Forall plainSegment (resolvePath cur p).
Proof.
  intros Hrel. unfold resolvePath. rewrite Hrel.
  pose proof (segmentsOf_nonempty p) as Hs. revert cur.
  induction Hs as [|s l Hne _ IH]; simpl; intros cur Hc; [assumption|].
  apply IH. now apply resolveStep_plain.
Qed.

(** C2. The path resolver is to return segments free of [.], [..] and the
    empty string for every input; the branch for inputs that start with [/]
    only splits and drops empty pieces, so [/home/user/../tmp] resolves,
    against every current path, to a list that still holds [..]. *)
Theorem resolvePath_absolute_keeps_dotdot cur :
  resolvePath cur "/home/user/../tmp" = ["home"; "user"; ".."; "tmp"]
  /\ ~ Forall plainSegment (resolvePath cur "/home/user/../tmp").
Proof.
  split; [reflexivity|].
  change (resolvePath cur "/home/user/../tmp") with ["home"; "user"; ".."; "tmp"].
  intros H. apply Forall_inv_tail, Forall_inv_tail, Forall_inv in H.
  destruct H as (_ & _ & H). now apply H.
Qed.

(** ** The current path *)

Lemma wellFormed_unfold item :
  wellFormed item =
  match children item with
  | Some o => optType_eqb (type item) (Some directory)
              && forallb (fun kv => wellFormed (snd kv)) o
  | None => negb (optType_eqb (type item) (Some directory))
  end.
Proof. destruct item as [n ty c [o|] cr md]; reflexivity. Qed.

Lemma wellFormed_directory d o :
  wellFormed d = true -> children d = Some o ->
  type d = Some directory /\ forallb (fun kv => wellFormed (snd kv)) o = true.
Proof.
  rewrite wellFormed_unfold. intros H Hc. rewrite Hc in H.
  apply andb_true_iff in H as [Ht Ho]. split; [|exact Ho].
  destruct (type d) as [[|]|]; simpl in Ht; congruence.
Qed.

Lemma forallb_ownProp (f : FileSystemItem -> bool) o k v :
  forallb (fun kv => f (snd kv)) o = true -> Obj.ownProp o k = Some v -> f v = true.
Proof.
  induction o as [|[k' v'] rest IH]; simpl; [discriminate|].
  intros H. apply andb_true_iff in H as [Hv Hr].
  destruct (String.eqb k' k); [now intros [= <-] | now apply IH].
Qed.

Lemma forallb_replaceProp (f : FileSystemItem -> bool) o k v :
  forallb (fun kv => f (snd kv)) o = true -> f v = true ->
  forallb (fun kv => f (snd kv)) (Obj.replaceProp o k v) = true.
Proof.
  intros H Hv. induction o as [|[k' v'] rest IH]; simpl in *; [reflexivity|].
  apply andb_true_iff in H as [Hv' Hr].
  destruct (String.eqb k' k); simpl; [now rewrite Hv | now rewrite Hv', IH].
Qed.

Lemma forallb_setProp (f : FileSystemItem -> bool) o k v :
  forallb (fun kv => f (snd kv)) o = true -> f v = true ->
  forallb (fun kv => f (snd kv)) (Obj.setProp o k v) = true.
Proof.
  intros H Hv. unfold Obj.setProp. destruct (Obj.ownProp o k).
  - now apply forallb_replaceProp.
  - rewrite forallb_app, H. simpl. now rewrite Hv.
Qed.

Lemma forallb_deleteProp (f : FileSystemItem -> bool) o k :
  forallb (fun kv => f (snd kv)) o = true ->
  forallb (fun kv => f (snd kv)) (Obj.deleteProp o k) = true.
Proof.
  intros H. induction o as [|[k' v'] rest IH]; simpl in *; [reflexivity|].
  apply andb_true_iff in H as [Hv' Hr].
  destruct (String.eqb k' k); simpl; [now apply IH | now rewrite Hv', IH].
Qed.

Lemma ownWalk_walk path : forall current d b,
  ownWalk current path = Some d -> walk b (VItem current) path = Some (VItem d).
Proof.
  induction path as [|segment rest IH]; simpl; intros current d b H.
  - now injection H as <-.
  - destruct (children current) as [o|]; [|discriminate].
    destruct (Obj.ownProp o segment) as [child|] eqn:Hc; [|discriminate].
    rewrite (getProp_own b o segment child Hc). now apply IH.
Qed.

Lemma walk_ownWalk path : forall current d b,
  walk b (VItem current) path = Some (VItem d) -> ownWalk current path = Some d.
Proof.
  induction path as [|segment rest IH]; simpl; intros current d b H.
  - now injection H as <-.
  - destruct (children current) as [o|]; [|discriminate].
    destruct (getProp b o segment) as [[child|k|]|] eqn:Hg; try discriminate.
    + rewrite (getProp_item b o segment child Hg). now apply (IH _ _ b).
    + destruct rest; simpl in H; discriminate.
    + destruct rest; simpl in H; discriminate.
Qed.

Lemma ownWalk_wellFormed path : forall current d,
  wellFormed current = true -> ownWalk current path = Some d -> wellFormed d = true.
Proof.
  induction path as [|segment rest IH]; simpl; intros current d Hw H.
  - now injection H as <-.
  - destruct (children current) as [o|] eqn:Ho; [|discriminate].
    destruct (Obj.ownProp o segment) as [child|] eqn:Hc; [|discriminate].
    apply (IH child); [|exact H].
    destruct (wellFormed_directory _ _ Hw Ho) as [_ Hall].
    apply (forallb_ownProp wellFormed o segment child Hall Hc).
Qed.

Lemma ownWalk_prefix path : forall current d o n,
  ownWalk current path = Some d -> children d = Some o ->
  exists d' o', ownWalk current (firstn n path) = Some d' /\ children d' = Some o'.
Proof.
  induction path as [|segment rest IH]; intros current d o n H Hd.
  - rewrite firstn_nil. simpl in *. injection H as <-. eauto.
  - destruct n as [|n]; simpl in *.
    + destruct (children current) as [oc|] eqn:Hoc; [eauto | discriminate].
    + destruct (children current) as [oc|] eqn:Hoc; [|discriminate].
      destruct (Obj.ownProp oc segment) as [child|]; [|discriminate].
      eapply IH; eauto.
Qed.

Lemma sound_resolvable w : sound w -> currentPathResolvable w.
Proof.
  intros (Hw & d & o & Hd & Ho) n.
  destruct (ownWalk_prefix _ _ _ _ n Hd Ho) as (d' & o' & Hd' & Ho').
  exists d'. split.
  - unfold getItemAtPath. now apply ownWalk_walk.
  - apply (wellFormed_directory d' o'); [|exact Ho'].
    now apply (ownWalk_wellFormed _ _ _ Hw Hd').
Qed.

Lemma updateAt_ownWalk path edit : forall current target target' b',
  ownWalk current path = Some target ->
  edit target = Some (target', b') ->
  exists current',
    updateAt path edit current = Some (current', b')
    /\ ownWalk current' path = Some target'
    /\ (wellFormed current = true -> wellFormed target' = true ->
        children target' <> None ->
        wellFormed current' = true).
Proof.
  induction path as [|segment rest IH]; simpl; intros current target target' b' H He.
  - injection H as <-. exists target'. auto.
  - destruct (children current) as [o|] eqn:Ho; [|discriminate].
    destruct (Obj.ownProp o segment) as [child|] eqn:Hc; [|discriminate].
    destruct (IH child target target' b' H He) as (child' & Hu & Hw & Hwf).
    rewrite Hu. eexists. split; [reflexivity|]. split.
    + simpl. rewrite ownProp_replaceProp by congruence. exact Hw.
    + intros Hcur Ht' Hn.
      destruct (wellFormed_directory _ _ Hcur Ho) as [Hty Hall].
      rewrite wellFormed_unfold. simpl. rewrite Hty. simpl.
      apply forallb_replaceProp; [exact Hall|].
      apply Hwf; [|exact Ht' | exact Hn].
      apply (forallb_ownProp wellFormed o segment child Hall Hc).
Qed.

Lemma commit_sound w edit :
  keepsShape edit -> keepsWellFormed edit -> sound w ->
  exists w', commit w edit = Some w' /\ sound w'.
Proof.
  intros Hk Hf (Hw & d & o & Hd & Ho). unfold commit.
  destruct (updateAt_ownWalk (currentPath (fileSystem w))
              (editCurrent (builtins w) edit) (root (fileSystem w)) d
              (fst (edit (builtins w) o d)) (snd (edit (builtins w) o d)) Hd)
    as (r & Hu & Hr & Hwf).
  { unfold editCurrent. rewrite Ho. now destruct (edit (builtins w) o d). }
  rewrite Hu. eexists. split; [reflexivity|].
  destruct (Hk (builtins w) o d Ho) as (_ & _ & Hc).
  split; simpl.
  - apply Hwf; [exact Hw | | exact Hc].
    apply Hf; [exact Ho|]. now apply (ownWalk_wellFormed _ _ _ Hw Hd).
  - destruct (children (fst (edit (builtins w) o d))) as [o'|] eqn:Ho'; [|congruence].
    eauto.
Qed.

Lemma wellFormed_setModified item t :
  wellFormed (setModified item t) = wellFormed item.
Proof. rewrite !wellFormed_unfold. reflexivity. Qed.

Lemma wellFormed_spread b v n :
  (forall it, v = Some (VItem it) -> wellFormed it = true) ->
  wellFormed (spreadNamed b v n) = true.
Proof.
  intros H. destruct v as [[it|k|]|]; try reflexivity.
  specialize (H it eq_refl). rewrite wellFormed_unfold in H |- *. exact H.
Qed.

Lemma wellFormed_edit c o o' t :
  wellFormed c = true -> children c = Some o ->
  forallb (fun kv => wellFormed (snd kv)) o' = true ->
  wellFormed (setModified (setChildren c o') t) = true.
Proof.
  intros Hc Ho Ho'. destruct (wellFormed_directory _ _ Hc Ho) as [Hty _].
  rewrite wellFormed_unfold. simpl. now rewrite Hty, Ho'.
Qed.

Lemma mkdirEdit_wellFormed n now : keepsWellFormed (mkdirEdit n now).
Proof.
  intros b o c Ho Hc. unfold mkdirEdit. cbn [fst].
  destruct (wellFormed_directory _ _ Hc Ho) as [_ Hall].
  apply (wellFormed_edit c o); auto. now apply forallb_setProp.
Qed.

Lemma touchEdit_wellFormed n now : keepsWellFormed (touchEdit n now).
Proof.
  intros b o c Ho Hc. unfold touchEdit.
  destruct (wellFormed_directory _ _ Hc Ho) as [_ Hall].
  destruct (getProp b o n) as [[it|k|]|] eqn:Hg; cbn [fst].
  - apply (wellFormed_edit c o); auto. apply forallb_setProp; [exact Hall|].
    rewrite wellFormed_setModified.
    apply (forallb_ownProp wellFormed o n it Hall). now apply (getProp_item b).
  - now rewrite wellFormed_setModified.
  - now rewrite wellFormed_setModified.
  - apply (wellFormed_edit c o); auto. now apply forallb_setProp.
Qed.

Lemma deleteEdit_wellFormed n now : keepsWellFormed (deleteEdit n now).
Proof.
  intros b o c Ho Hc. unfold deleteEdit. cbn [fst].
  destruct (wellFormed_directory _ _ Hc Ho) as [_ Hall].
  apply (wellFormed_edit c o); auto. now apply forallb_deleteProp.
Qed.

Lemma spread_wellFormed b o k n :
  forallb (fun kv => wellFormed (snd kv)) o = true ->
  wellFormed (spreadNamed b (getProp b o k) n) = true.
Proof.
  intros Hall. apply wellFormed_spread. intros it Hg.
  apply (forallb_ownProp wellFormed o k it Hall). now apply (getProp_item b).
Qed.

Lemma mvEdit_wellFormed s d now : keepsWellFormed (mvEdit s d now).
Proof.
  intros b o c Ho Hc. unfold mvEdit. cbn [fst].
  destruct (wellFormed_directory _ _ Hc Ho) as [_ Hall].
  apply (wellFormed_edit c o); auto.
  apply forallb_deleteProp, forallb_setProp; [exact Hall|].
  now apply spread_wellFormed.
Qed.

Lemma cpEdit_wellFormed s d now : keepsWellFormed (cpEdit s d now).
Proof.
  intros b o c Ho Hc. unfold cpEdit. cbn [fst].
  destruct (wellFormed_directory _ _ Hc Ho) as [_ Hall].
  apply (wellFormed_edit c o); auto.
  apply forallb_setProp; [exact Hall|].
  rewrite wellFormed_setModified.
  pose proof (spread_wellFormed b o s d Hall) as H.
  rewrite wellFormed_unfold in H |- *. exact H.
Qed.

Lemma cd_sound w path v :
  sound w -> getItemAtPath w path = Some v ->
  optType_eqb (typeOf v) (Some directory) = true ->
  sound (setCurrentPath w path).
Proof.
  intros (Hw & _) Hg Ht. apply typeOf_directory in Ht as (d & -> & Ht).
  apply walk_ownWalk in Hg. split; [exact Hw|]. simpl.
  pose proof (ownWalk_wellFormed _ _ _ Hw Hg) as Hd.
  rewrite wellFormed_unfold in Hd.
  destruct (children d) as [o|] eqn:Ho; [eauto|].
  rewrite Ht in Hd. discriminate.
Qed.

Create HintDb formed.
#[local] Hint Resolve mkdirEdit_wellFormed touchEdit_wellFormed
  deleteEdit_wellFormed mvEdit_wellFormed cpEdit_wellFormed
  mkdirEdit_shape touchEdit_shape deleteEdit_shape mvEdit_shape cpEdit_shape
  : formed.

Lemma executeArgs_sound h now w args :
  sound w -> bareCdArgs args = false ->
  exists w', snd (executeArgs h now w args) = Some w' /\ sound w'.
Proof.
  intros S. unfold bareCdArgs. unfold_commands.
  split_outcome; intros Hb; try discriminate; cbn [snd];
    first
      [ now eauto
      | eexists; split; [reflexivity|];
        eapply cd_sound; [exact S | eassumption |];
        now apply negb_false_iff
      | apply commit_sound; auto with formed ].
Qed.

Lemma initial_sound now : sound (initialWorld now).
Proof.
  split; [reflexivity|]. eexists. eexists. split; reflexivity.
Qed.

(** Starting from the initial file system, the lines of a session in which
    [cd] always has an operand leave a current path that names a directory
    at every prefix (and none of their updaters throws). *)
Lemma resolvable_without_bare_cd h now0 lines :
  Forall (fun l => bareCd (snd l) = false) lines ->
  currentPathResolvable (session h (initialWorld now0) lines).
Proof.
  intros H. apply sound_resolvable.
  generalize (initial_sound now0). generalize (initialWorld now0).
  induction H as [|[now input] rest Hb _ IH]; intros w S; simpl; [exact S|].
  destruct (executeArgs_sound h now w (Str.splitWs (Str.trim input)) S Hb)
    as (w' & Hw' & S').
  unfold executeCommand. rewrite Hw'. now apply IH.
Qed.

(** C5. The current path is to name a directory at every prefix after every
    sequence of commands; [cd] without an argument installs [home/user]
    without the lookup the other branch of [cd] does, so after [cd /home],
    [mv user u], [cd] the current path is [home/user] and no such node
    exists (and the updater of the next mutating command throws). *)
Theorem bare_cd_breaks_currentPath :
  let w := session sampleHost (initialWorld 0%Z)
             [(1%Z, "cd /home"); (2%Z, "mv user u"); (3%Z, "cd")] in
  currentPath (fileSystem w) = ["home"; "user"]
  /\ getItemAtPath w ["home"; "user"] = None
  /\ ~ currentPathResolvable w
  /\ snd (executeCommand sampleHost 4%Z w "mkdir x") = None.
Proof.
  intros w. split; [reflexivity|]. split; [reflexivity|]. split; [|reflexivity].
  intros H. destruct (H 2) as (d & Hd & _). vm_compute in Hd. discriminate.
Qed.

(** ** Names inherited from [Object.prototype] *)

(** C8. [touch f] followed by [cat f] is to print the empty string when no
    child [f] exists, and [cat dest] after [cp src dest] the content of
    [src]; the lookups [children[name]] also find what a plain object
    inherits, so in the initial directory, which has no child
    [constructor] and no child [toString], [touch constructor] creates no
    file and [cat constructor] fails, and [cp welcome.txt toString] is
    refused as if [toString] existed. *)
Theorem touch_cat_inherited_name :
  let w0 := initialWorld 0%Z in
  let w1 := session sampleHost w0 [(1%Z, "touch constructor")] in
  (exists o, childrenOf (getCurrentDirectory w0) = Some o
             /\ Obj.ownProp o "constructor" = None
             /\ Obj.ownProp o "toString" = None)
  /\ childrenOf (getCurrentDirectory w1) = childrenOf (getCurrentDirectory w0)
  /\ executeCommand sampleHost 2%Z w1 "cat constructor"
     = failure w1 "cat: constructor: Is a directory"
  /\ executeCommand sampleHost 2%Z w0 "cp welcome.txt toString"
     = failure w0 "cp: cannot create regular file 'toString': File exists".
Proof.
  intros w0 w1. split.
  - eexists. split; [reflexivity|]. split; reflexivity.
  - split; [reflexivity|]. split; reflexivity.
Qed.

(** C9. [mv src dest] is to succeed for a directory [src] whenever [dest]
    does not exist; the test for [dest] is the lookup that also finds what a
    plain object inherits, so in the initial directory, where [documents] is
    a directory and no child [constructor] exists, [mv documents
    constructor] is refused with "File exists". *)
Theorem mv_refuses_inherited_destination :
  let w0 := initialWorld 0%Z in
  (exists o d, childrenOf (getCurrentDirectory w0) = Some o
               /\ Obj.ownProp o "documents" = Some d
               /\ type d = Some directory
               /\ Obj.ownProp o "constructor" = None)
  /\ executeCommand sampleHost 1%Z w0 "mv documents constructor"
     = failure w0 "mv: cannot move 'documents' to 'constructor': File exists".
Proof.
  intros w0. split; [|reflexivity].
  eexists. eexists. split; [reflexivity|]. split; [reflexivity|].
  split; reflexivity.
Qed.
